(** * jobd: a cron job daemon served as a 9P file tree

    A shallow embedding of [job.go], [jobs.go] and [clone.go].

    Go values are rendered as follows.
    - [string] is [string]; [[]byte] is [list ascii] (one [ascii] per byte);
      [string(data)] and [[]byte(s)] are the two standard conversions.
    - [int] results ([len], byte counts) are [Z]; [uint64] offsets are
      non-negative [Z].  No arithmetic is performed on them, only
      comparisons, so no wrap-around occurs.
    - [(T, error)] results are [result T]; [(int, error)] results of the
      file operations keep both components, as the callers return both.
    - The [*ring.Ring] held in [job.history] is the list of the ring's
      values read in [Next] order from the element pointed to.
    - Goroutines started by [go job.run()] are entries of [tasks]; each
      records where in [run] the goroutine stands.
    - The clock, the external command, the cron library and the Unicode
      tables of [strings.ToLower] are outside the repository: they are
      Section variables or labels of the events. *)

From Stdlib Require Import ZArith List Bool Ascii String Lia Arith.
Import ListNotations.

Open Scope string_scope.
Open Scope list_scope.
Open Scope Z_scope.

(** ** Bytes and strings *)

Definition bytes := list ascii.

Definition len {A : Type} (l : list A) : Z := Z.of_nat (List.length l).

(** [c < utf8.RuneSelf] *)
Definition isASCII_byte (c : ascii) : bool := (nat_of_ascii c <? 128)%nat.

Fixpoint isASCII (s : string) : bool :=
  match s with
  | EmptyString => true
  | String c s' => isASCII_byte c && isASCII s'
  end.

(** ['A' <= c && c <= 'Z'] *)
Definition isUpper (c : ascii) : bool :=
  ((65 <=? nat_of_ascii c) && (nat_of_ascii c <=? 90))%nat.

(** [c += 'a' - 'A'] on an upper-case letter. *)
Definition lower_byte (c : ascii) : ascii :=
  if isUpper c then ascii_of_nat (nat_of_ascii c + 32) else c.

Fixpoint lower_ascii (s : string) : string :=
  match s with
  | EmptyString => EmptyString
  | String c s' => String (lower_byte c) (lower_ascii s')
  end.

(** [strings.Split(s, sep)] for a one-byte separator: the fields between
    the separators, one more than there are separators. *)
Fixpoint strings_Split (s : string) (sep : ascii) : list string :=
  match s with
  | EmptyString => [EmptyString]
  | String c s' =>
      if Ascii.eqb c sep then EmptyString :: strings_Split s' sep
      else match strings_Split s' sep with
           | [] => [String c EmptyString]
           | f :: fs => String c f :: fs
           end
  end.

(** The class [[:word:]] of the regexp package: [[0-9A-Za-z_]]. *)
Definition is_word (c : ascii) : bool :=
  let n := nat_of_ascii c in
  ((48 <=? n) && (n <=? 57) || (65 <=? n) && (n <=? 90)
   || (97 <=? n) && (n <=? 122) || (n =? 95))%nat.

(** [regexp.MatchString("[^[:word:]]", name)]: some character of [name] is
    not a word character.  A byte of a multi-byte or malformed sequence
    belongs to a rune outside ASCII, which is not a word character either.
    The pattern is a constant that compiles, so the error is always nil. *)
Fixpoint MatchString_nonword (name : string) : bool :=
  match name with
  | EmptyString => false
  | String c s' => negb (is_word c) || MatchString_nonword s'
  end.

(** ** Errors *)

Inductive error : Type :=
| Eperm                                      (* srv.Eperm *)
| Eexist                                     (* srv.Eexist *)
| ErrUnknownCommand (cmd : string)           (* "unknown command: %s" *)
| ErrInvalidJobName (name : string)          (* "invalid job name: %s" *)
| ErrInvalidJobDefinition (def : string)     (* "invalid job definition: %s" *)
| ErrCron (msg : string)                     (* error of cronexpr.Parse *)
| ErrOS (msg : string).                      (* error of os.OpenFile *)

(** The error kinds of the specification. *)
Inductive errkind : Type :=
| invalid_definition | duplicate_name | unknown_command
| permission_denied | io_error.

Definition kind_of (e : error) : errkind :=
  match e with
  | Eperm => permission_denied
  | Eexist => duplicate_name
  | ErrUnknownCommand _ => unknown_command
  | ErrInvalidJobName _ => invalid_definition
  | ErrInvalidJobDefinition _ => invalid_definition
  | ErrCron _ => invalid_definition
  | ErrOS _ => io_error
  end.

Inductive result (A : Type) : Type :=
| Ok (a : A)
| Err (e : error).
Arguments Ok {A} a.
Arguments Err {A} e.

Definition bind {A B : Type} (r : result A) (k : A -> result B) : result B :=
  match r with
  | Ok a => k a
  | Err e => Err e
  end.

Notation "x <- r ;; k" := (bind r (fun x => k))
  (at level 61, r at next level, right associativity).

(** ** container/ring *)

(** A ring seen from the element a [*Ring] points to: its values in [Next]
    order, starting with that element's own. *)
Definition Ring := list (option string).

(** [ring.New(n)]: [n] elements, all values nil. *)
Definition ring_New (n : nat) : Ring := repeat None n.

(** [r.Value = v] *)
Definition ring_set_Value (r : Ring) (v : option string) : Ring :=
  match r with
  | [] => []
  | _ :: rest => v :: rest
  end.

(** [r.Next()]: the pointer moves one element forward, so the element it
    leaves becomes the last one reached. *)
Definition ring_Next (r : Ring) : Ring :=
  match r with
  | [] => []
  | v :: rest => rest ++ [v]
  end.

(** [r.Do(f)]: [f] on every value, forward from the pointed element. *)
Definition ring_Do {S : Type} (r : Ring) (f : S -> option string -> S) (init : S) : S :=
  fold_left f r init.

(** ** The file tree of go9p *)

(** A node of the tree: the [Name] and [Mode] fields of [srv.File] and the
    operations value registered with it. *)
Record File (A : Type) : Type := mkFile {
  Name : string;
  Mode : Z;
  ops : A
}.
Arguments mkFile {A} Name Mode ops.
Arguments Name {A} f.
Arguments Mode {A} f.
Arguments ops {A} f.

(** Modelled from the spec: [srv.File.Add] of the go9p library, which is
    not among the sources.  "Nodes are added via add(parent, name, owner,
    mode, reader, writer) which fails if name already exists under parent";
    children are "ordered by insertion".  The directory is given by its
    list of children. *)
Definition File_Add {A : Type} (dir : list (File A)) (name : string)
    (mode : Z) (x : A) : result (list (File A)) :=
  if existsb (fun f => String.eqb (Name f) name) dir then Err Eexist
  else Ok (dir ++ [mkFile name mode x]).

(** [p.DMDIR] *)
Definition DMDIR : Z := 0x80000000.

Section Jobd.

Set Default Proof Using "Type".

(** ** External collaborators *)

(** [cronexpr.Expression] and [cronexpr.Parse]: a parse yields a handle or
    an error message. *)
Variable Expression : Type.
Variable cronexpr_Parse : string -> Expression + string.

(** [e.Next(t)] and the [%v] / [String()] rendering of an instant.  Instants
    are numbers of nanoseconds. *)
Variable cronexpr_Next : Expression -> Z -> Z.
Variable time_String : Z -> string.

(** [strings.Map(unicode.ToLower, s)], which [strings.ToLower] applies to a
    string holding a byte outside ASCII. *)
Variable Map_unicode_ToLower : string -> string.

(** [strings.ToLower]: byte-wise on an ASCII-only string, through the
    Unicode tables otherwise. *)
Definition strings_ToLower (s : string) : string :=
  if isASCII s then lower_ascii s else Map_unicode_ToLower s.

(** ** job.go: constants and types *)

Definition STOPPED : string := "stopped".
Definition STOP : string := "stop".
Definition STARTED : string := "started".
Definition START : string := "start".

Record jobdef : Type := mkJobdef {
  name : string;
  schedule : string;
  cmd : string;
  state : string
}.

(** Where a goroutine running [run] stands. *)
Inductive pc : Type :=
| AtEntry     (* started by [go job.run()], nothing executed yet *)
| AtSelect    (* waiting in the [select] of the loop *)
| GotDone     (* has received from [j.done], completion not yet recorded *)
| Exited.     (* has returned *)

(** The four files [mkJob] puts under a job's directory. *)
Inductive jobnode : Type := Nctl | Nsched | Ncmd | Nlog.

(** [job]: the definition, the history ring, the goroutines started for
    it, and the children of its embedded [srv.File].  The channel [done] is
    unbuffered and so holds nothing. *)
Record job : Type := mkJobRec {
  defn : jobdef;
  history : Ring;
  tasks : list pc;
  children : list (File jobnode)
}.

Definition set_state (j : job) (st : string) : job :=
  mkJobRec (mkJobdef (name (defn j)) (schedule (defn j)) (cmd (defn j)) st)
           (history j) (tasks j) (children j).

Definition set_history (j : job) (h : Ring) : job :=
  mkJobRec (defn j) h (tasks j) (children j).

Definition set_tasks (j : job) (ts : list pc) : job :=
  mkJobRec (defn j) (history j) ts (children j).

Definition set_children (j : job) (cs : list (File jobnode)) : job :=
  mkJobRec (defn j) (history j) (tasks j) cs.

(** What a writer does: it returns, or it is left waiting in the send
    [job.done <- true] (with the parent's lock held). *)
Inductive wres : Type :=
| Returned (j : job) (n : Z) (err : option error)
| Parked (j : job).

(** A reader closure run at an instant on the current job; [None] is a
    run-time panic.  A writer closure run on the current job. *)
Definition jobreader : Type := job -> Z -> option bytes.
Definition jobwriter : Type := job -> bytes -> wres.

Record jobfile : Type := mkJobfile {
  reader : jobreader;
  writer : jobwriter
}.

(** ** The closures of [mkJob] *)

(** [go job.run()] *)
Definition spawn (j : job) : job := set_tasks j (tasks j ++ [AtEntry]).

(** The ctl writer. *)
Definition ctl_writer : jobwriter := fun j data =>
  let cmd := strings_ToLower (string_of_list_ascii data) in
  if String.eqb cmd STOP then
    if negb (String.eqb (state (defn j)) STOPPED) then
      Parked (set_state j STOPPED)
    else Returned j (len data) None
  else if String.eqb cmd START then
    if negb (String.eqb (state (defn j)) STARTED) then
      Returned (spawn (set_state j STARTED)) (len data) None
    else Returned j (len data) None
  else Returned j 0 (Some (ErrUnknownCommand cmd)).

Definition ctl_file : jobfile :=
  mkJobfile (fun j _ => Some (list_ascii_of_string (state (defn j))))
            ctl_writer.

(** The schedule reader applies [e.Next] to the nil handle of a failed
    parse: a panic. *)
Definition sched_file : jobfile :=
  mkJobfile
    (fun j now =>
       if String.eqb (state (defn j)) STARTED then
         match cronexpr_Parse (schedule (defn j)) with
         | inl e =>
             Some (list_ascii_of_string
                     (schedule (defn j) ++ ":" ++ time_String (cronexpr_Next e now))%string)
         | inr _ => None
         end
       else Some (list_ascii_of_string (schedule (defn j))))
    (fun j _ => Returned j 0 (Some Eperm)).

(** The cmd reader returns [def.cmd], the parameter of [mkJob], of which
    [job.defn] is a copy; nothing assigns to either. *)
Definition cmd_file : jobfile :=
  mkJobfile (fun j _ => Some (list_ascii_of_string (cmd (defn j))))
            (fun j _ => Returned j 0 (Some Eperm)).

Definition log_file : jobfile :=
  mkJobfile
    (fun j _ =>
       Some (ring_Do (history j)
               (fun result v =>
                  match v with
                  | Some s => result ++ list_ascii_of_string s
                  | None => result
                  end) []))
    (fun j _ => Returned j 0 (Some Eperm)).

Definition jobfile_of (n : jobnode) : jobfile :=
  match n with
  | Nctl => ctl_file
  | Nsched => sched_file
  | Ncmd => cmd_file
  | Nlog => log_file
  end.

(** ** [mkJob] and [mkJobDefinition] *)

(** Modes are written in decimal: 0666 = 438, 0444 = 292, 0555 = 365. *)
Definition mkJob (def : jobdef) : result job :=
  let job := mkJobRec def (ring_New 32) [] [] in
  c1 <- File_Add (children job) "ctl" 438 Nctl ;;
  c2 <- File_Add c1 "schedule" 292 Nsched ;;
  c3 <- File_Add c2 "cmd" 292 Ncmd ;;
  c4 <- File_Add c3 "log" 292 Nlog ;;
  Ok (set_children job c4).

Definition mkJobDefinition (name schedule cmd : string) : result jobdef :=
  if MatchString_nonword name then Err (ErrInvalidJobName name)
  else match cronexpr_Parse schedule with
       | inr msg => Err (ErrCron msg)
       | inl _ => Ok (mkJobdef name schedule cmd STOPPED)
       end.

(** ** [jobfile.Read] and [jobfile.Write] *)

(** [copy(dst, src)]: the first [min(len(dst), len(src))] bytes of [src]
    overwrite the start of [dst]. *)
Definition copy (dst src : bytes) : bytes :=
  firstn (List.length dst) src ++ skipn (List.length src) dst.

(** [Read] yields the buffer after the copy and the pair it returns. *)
Definition jobfile_Read (jf : jobfile) (j : job) (now : Z) (buf : bytes)
    (offset : Z) : option (bytes * (Z * option error)) :=
  match reader jf j now with
  | None => None
  | Some cont =>
      if len cont <? offset then Some (buf, (0, None))
      else
        let contout := skipn (Z.to_nat offset) cont in
        Some (copy buf contout, (len contout, None))
  end.

(** [Write] runs the writer under the parent's lock; the offset is unused.
    The lock is the [sending] field of the interleaving model below. *)
Definition jobfile_Write (jf : jobfile) (j : job) (data : bytes)
    (offset : Z) : wres :=
  writer jf j data.

(** ** [run] *)

(** [j.history.Value = entry; j.history = j.history.Next()], the two
    assignments taken as one step.  [run] takes no lock, so this is what
    happens while one goroutine of the job is alive; the assignments of two
    live goroutines can fall between each other, which no sequence of
    pushes describes. *)
Definition push (j : job) (entry : string) : job :=
  set_history j (ring_Next (ring_set_Value (history j) (Some entry))).

Definition nl : string := String (ascii_of_nat 10) EmptyString.

Fixpoint set_nth {A : Type} (l : list A) (i : nat) (x : A) : list A :=
  match l, i with
  | [], _ => []
  | _ :: rest, O => x :: rest
  | y :: rest, S i' => y :: set_nth rest i' x
  end.

Definition set_task (j : job) (i : nat) (p : pc) : job :=
  set_tasks j (set_nth (tasks j) i p).

(** The head of the loop: the schedule is parsed again; on an error the
    goroutine returns, otherwise it reaches the [select]. *)
Definition loop_head (j : job) : pc :=
  match cronexpr_Parse (schedule (defn j)) with
  | inl _ => AtSelect
  | inr _ => Exited
  end.

(** The steps of one goroutine, labelled with what the clock and the
    command deliver.  A timer case is one step, taken when [k.Run] has
    returned: a goroutine inside a command that is still running, or that
    never returns, is not among the states. *)
Inductive taskev : Type :=
| Begin (now : Z)                        (* the first push, then the loop head *)
| Fire (now : Z) (out : option string)   (* timer case; [out] is the stdout of
                                            a successful [k.Run], [None] an error *)
| Finish (now : Z).                      (* after the receive: last push, return *)

Definition run_step (j : job) (i : nat) (ev : taskev) : option job :=
  match nth_error (tasks j) i, ev with
  | Some AtEntry, Begin now =>
      let j1 := push j (time_String now ++ ":started" ++ nl)%string in
      Some (set_task j1 i (loop_head j1))
  | Some AtSelect, Fire now (Some out) =>
      let j1 := push j (time_String now ++ ":" ++ out)%string in
      Some (set_task j1 i (loop_head j1))
  | Some AtSelect, Fire now None =>
      Some (set_task j i (loop_head j))
  | Some GotDone, Finish now =>
      let j1 := push j (time_String now ++ ":completed" ++ nl)%string in
      Some (set_task j1 i Exited)
  | _, _ => None
  end.

(** The [case <-j.done] of the [select]: it is taken together with a send. *)
Definition recv_done (j : job) (i : nat) : option job :=
  match nth_error (tasks j) i with
  | Some AtSelect => Some (set_task j i GotDone)
  | _ => None
  end.

(** ** jobs.go: the jobs directory *)

(** [addJob] on the children of the jobs directory: the job is built, then
    added under its name with mode [p.DMDIR|0555]. *)
Definition addJob (jd : list (File job)) (def : jobdef) : result (list (File job)) :=
  job <- mkJob def ;;
  File_Add jd (name def) (Z.lor DMDIR 365) job.

(** ** clone.go: the clone file *)

(** The definitions file on the host: whether opening it for append fails,
    whether a write to the open file fails, and its content. *)
Record hostfile : Type := mkHostfile {
  open_error : option string;
  write_error : option string;
  content : string
}.

(** [os.OpenFile(jobsdb, os.O_WRONLY|os.O_APPEND, 0755)] *)
Definition os_OpenFile (f : hostfile) : result hostfile :=
  match open_error f with
  | Some msg => Err (ErrOS msg)
  | None => Ok f
  end.

(** [fmt.Fprintf(db, "%s\n", s)] on a file opened for append: the file
    afterwards and the error returned. *)
Definition Fprintf_line (db : hostfile) (s : string) : hostfile * option error :=
  match write_error db with
  | Some msg => (db, Some (ErrOS msg))
  | None =>
      (mkHostfile (open_error db) (write_error db) (content db ++ s ++ nl)%string,
       None)
  end.

(** The globals [jobsroot] and [jobsdb]. *)
Record daemon : Type := mkDaemon {
  jobsroot : list (File job);
  jobsdb : hostfile
}.

(** [clonefile.Write], run under the clone file's own lock.  The results of
    [Fprintf] and [Close] are dropped. *)
Definition clonefile_Write (d : daemon) (data : bytes) (offset : Z)
    : daemon * (Z * option error) :=
  match strings_Split (string_of_list_ascii data) ":" with
  | [p0; p1; p2] =>
      match mkJobDefinition p0 p1 p2 with
      | Err e => (d, (0, Some e))
      | Ok jd =>
          match addJob (jobsroot d) jd with
          | Err e => (d, (len data, Some e))
          | Ok root' =>
              match os_OpenFile (jobsdb d) with
              | Err e => (mkDaemon root' (jobsdb d), (len data, Some e))
              | Ok db =>
                  let db' := fst (Fprintf_line db (string_of_list_ascii data)) in
                  (mkDaemon root' db', (len data, None))
              end
          end
      end
  | _ => (d, (0, Some (ErrInvalidJobDefinition (string_of_list_ascii data))))
  end.

(** ** Interleavings of writes and goroutine steps on one job *)

(** [sending] holds the payload of a ctl write waiting in [job.done <- true];
    that write holds the lock of the job's directory, which every write to
    a file of the job takes. *)
Record sys : Type := mkSys {
  sjob : job;
  sending : option bytes
}.

Inductive event : Type :=
| WriteFile (n : jobnode) (data : bytes)   (* a write is admitted and runs *)
| Recv (i : nat)                           (* goroutine [i] takes the signal *)
| Task (i : nat) (ev : taskev).            (* goroutine [i] takes a step *)

Definition step (s : sys) (e : event) : option sys :=
  match e with
  | WriteFile n data =>
      match sending s with
      | Some _ => None
      | None =>
          match jobfile_Write (jobfile_of n) (sjob s) data 0 with
          | Returned j _ _ => Some (mkSys j None)
          | Parked j => Some (mkSys j (Some data))
          end
      end
  | Recv i =>
      match sending s with
      | None => None
      | Some _ =>
          match recv_done (sjob s) i with
          | Some j => Some (mkSys j None)
          | None => None
          end
      end
  | Task i ev =>
      match run_step (sjob s) i ev with
      | Some j => Some (mkSys j (sending s))
      | None => None
      end
  end.

Fixpoint run_events (s : sys) (es : list event) : option sys :=
  match es with
  | [] => Some s
  | e :: es' =>
      match step s e with
      | Some s' => run_events s' es'
      | None => None
      end
  end.

(** A goroutine is present when it has not returned; it is still listening
    when it has not taken the signal either. *)
Definition present (p : pc) : bool :=
  match p with Exited => false | _ => true end.

Definition listening (p : pc) : bool :=
  match p with AtEntry | AtSelect => true | _ => false end.

Definition count_listening (ts : list pc) : nat :=
  List.length (filter listening ts).

Definition weight (p : pc) : nat := if listening p then 1%nat else 0%nat.

(** Goroutine steps taken while a ctl write waits in its send. *)
Inductive task_steps : job -> job -> Prop :=
| ts_refl j : task_steps j j
| ts_step j i ev j1 j2 :
    run_step j i ev = Some j1 -> task_steps j1 j2 -> task_steps j j2.

(** A whole ctl write: the writer returns at once, or it waits in the send
    until a goroutine takes the signal and then returns [len(data), nil]. *)
Inductive ctl_write (j : job) (data : bytes) : job -> Z -> option error -> Prop :=
| cw_return j1 n e :
    ctl_writer j data = Returned j1 n e -> ctl_write j data j1 n e
| cw_handoff jp jp' i j1 :
    ctl_writer j data = Parked jp ->
    task_steps jp jp' ->
    recv_done jp' i = Some j1 ->
    ctl_write j data j1 (len data) None.

(** ** The words of the specification *)

(** A name as the specification has it: [[A-Za-z0-9_]+]. *)
Definition spec_valid_name (name : string) : bool :=
  match name with
  | EmptyString => false
  | _ => forallb is_word (list_ascii_of_string name)
  end.

(** Equal to a command word without regard to ASCII case. *)
Definition equal_fold (data : bytes) (word : string) : Prop :=
  lower_ascii (string_of_list_ascii data) = word.

(** The last [n] elements of a list. *)
Definition lastn {A : Type} (n : nat) (l : list A) : list A :=
  skipn (List.length l - n) l.

(** The entries a history holds. *)
Definition entries (r : Ring) : list string :=
  flat_map (fun v => match v with Some s => [s] | None => [] end) r.

(** White space: space, and the bytes 9 to 13. *)
Definition is_space (c : ascii) : bool :=
  let n := nat_of_ascii c in
  ((n =? 32) || (9 <=? n) && (n <=? 13))%nat.

(** The payload starts or ends with white space. *)
Definition outer_space (data : bytes) : bool :=
  match data with
  | [] => false
  | c :: _ => is_space c || is_space (last data c)
  end.

(** ** Instances of the collaborators for the closed examples *)

(** A cron evaluator that accepts the expression of every minute only. *)
Definition sample_Parse (s : string) : unit + string :=
  if String.eqb s "* * * * *" then inl tt else inr "syntax error".

Definition sample_Next (_ : unit) (t : Z) : Z := t + 60.

Definition sample_time_String (t : Z) : string :=
  if t =? 0 then "t0" else "t1".

(** On the strings the examples use, which are ASCII, the Unicode mapping
    is never consulted. *)
Definition sample_lower (s : string) : string := s.

(** The job of the first scenario, as [mkJob] builds it. *)
Definition hello_def : jobdef := mkJobdef "hello" "* * * * *" "echo hi" STOPPED.

Definition hello_job : job :=
  mkJobRec hello_def (ring_New 32) []
    [mkFile "ctl" 438 Nctl; mkFile "schedule" 292 Nsched;
     mkFile "cmd" 292 Ncmd; mkFile "log" 292 Nlog].

(** ** What holds along every interleaving *)

(** Either the job is started, no write waits and one goroutine listens;
    or a stop write has stored [STOPPED] and waits for the one listening
    goroutine to take the signal; or the job is stopped, no write waits
    and no goroutine listens. *)
Definition coherent (s : sys) : Prop :=
  let st := state (defn (sjob s)) in
  let n := count_listening (tasks (sjob s)) in
  (st = STARTED /\ sending s = None /\ n = 1%nat)
  \/ (st = STOPPED /\ sending s <> None /\ n = 1%nat)
  \/ (st = STOPPED /\ sending s = None /\ n = 0%nat).

(** The payload of a clone write is turned down as a definition: it does
    not split into three fields, or the name holds a character that is not
    a word character, or the schedule does not parse. *)
Definition turned_down (data : bytes) : Prop :=
  match strings_Split (string_of_list_ascii data) ":" with
  | [p0; p1; p2] =>
      MatchString_nonword p0 = true
      \/ exists msg, cronexpr_Parse p1 = inr msg
  | _ => True
  end.

(** ** Sequences of clone writes and the lines of the definitions file *)

(** Clone writes one after the other; the offset is not used by [Write]. *)
Definition clone_writes (d : daemon) (datas : list bytes) : daemon :=
  fold_left (fun d data => fst (clonefile_Write d data 0)) datas d.

(** The line that stands for a child of the jobs directory: the three
    fields of its job joined by ':' and a newline. *)
Definition line_of (f : File job) : string :=
  (name (defn (ops f)) ++ ":" ++ schedule (defn (ops f)) ++ ":"
   ++ cmd (defn (ops f)) ++ nl)%string.

Fixpoint lines_of (dir : list (File job)) : string :=
  match dir with
  | [] => EmptyString
  | f :: rest => (line_of f ++ lines_of rest)%string
  end.

(** The definitions file opens and takes writes. *)
Definition healthy (db : hostfile) : Prop :=
  open_error db = None /\ write_error db = None.

(** A child of the jobs directory as [addJob] makes it from a definition
    that [mkJobDefinition] returned. *)
Definition registered (f : File job) : Prop :=
  Name f = name (defn (ops f))
  /\ Mode f = Z.lor DMDIR 365
  /\ mkJob (defn (ops f)) = Ok (ops f)
  /\ mkJobDefinition (name (defn (ops f))) (schedule (defn (ops f)))
       (cmd (defn (ops f))) = Ok (defn (ops f)).

(** The history entries an event pushes when it is taken. *)
Definition event_entries (e : event) : list string :=
  match e with
  | Task _ (Begin now) => [(time_String now ++ ":started" ++ nl)%string]
  | Task _ (Fire now (Some out)) => [(time_String now ++ ":" ++ out)%string]
  | Task _ (Finish now) => [(time_String now ++ ":completed" ++ nl)%string]
  | _ => []
  end.

(** The timer fires of one goroutine, each with its instant and the stdout
    of a successful command. *)
Definition fires (i : nat) (runs : list (Z * string)) : list event :=
  map (fun r => Task i (Fire (fst r) (Some (snd r)))) runs.

(** The record of a child of the jobs directory, [line_of] without its
    newline; the newline byte; a string without one. *)
Definition record_of (f : File job) : string :=
  (name (defn (ops f)) ++ ":" ++ schedule (defn (ops f)) ++ ":"
   ++ cmd (defn (ops f)))%string.

Definition newline : ascii := ascii_of_nat 10.

Definition newline_free (s : string) : Prop :=
  ~ In newline (list_ascii_of_string s).

(** At most one goroutine of the job has not returned, in the state given
    and in every state the events lead through.  Then the pushes of [run],
    which take no lock, never overlap. *)
Definition count_present (ts : list pc) : nat :=
  List.length (filter present ts).

Fixpoint alone_throughout (s : sys) (es : list event) : bool :=
  (count_present (tasks (sjob s)) <=? 1)%nat
  && match es with
     | [] => true
     | e :: es' =>
         match step s e with
         | Some s' => alone_throughout s' es'
         | None => true
         end
     end.

(** * Properties *)

(** The one fact used about the Unicode mapping, in every version of the
    Go library: no code point outside ASCII has a lower-case form among the
    letters of the two command words (only U+0130 and U+212A lower into
    ASCII, to [i] and [k]), and a malformed byte is kept or replaced by
    U+FFFD; so a string holding a byte outside ASCII never lowers to one of
    the words. *)
Hypothesis Map_unicode_ToLower_commands :
  forall s, isASCII s = false ->
    Map_unicode_ToLower s <> STOP /\ Map_unicode_ToLower s <> START.

(** ** Lowering and the command words *)

Ltac each_byte c :=
  destruct c as [[] [] [] [] [] [] [] []]; try reflexivity; try discriminate.

Lemma isASCII_lower_byte c : isASCII_byte (lower_byte c) = isASCII_byte c.
Proof. each_byte c. Qed.

Lemma isASCII_lower_ascii s : isASCII (lower_ascii s) = isASCII s.
Proof.
  induction s as [|c s IH]; simpl; [reflexivity|].
  now rewrite isASCII_lower_byte, IH.
Qed.

Lemma is_space_lower_byte c : is_space (lower_byte c) = is_space c.
Proof. each_byte c. Qed.

Lemma lower_ascii_map data :
  list_ascii_of_string (lower_ascii (string_of_list_ascii data))
  = map lower_byte data.
Proof.
  induction data as [|c data IH]; simpl; [reflexivity|]. now rewrite IH.
Qed.

Lemma last_map_lower data d :
  last (map lower_byte data) (lower_byte d) = lower_byte (last data d).
Proof.
  induction data as [|c data IH]; simpl; [reflexivity|].
  destruct data as [|c' data]; [reflexivity|]. exact IH.
Qed.

Lemma outer_space_lower data :
  outer_space (map lower_byte data) = outer_space data.
Proof.
  destruct data as [|c data]; [reflexivity|].
  change (outer_space (map lower_byte (c :: data)))
    with (is_space (lower_byte c)
          || is_space (last (map lower_byte (c :: data)) (lower_byte c))).
  rewrite last_map_lower, !is_space_lower_byte. reflexivity.
Qed.

(** A payload lowers to a command word exactly when it equals the word up
    to ASCII case. *)
Lemma ToLower_command data w :
  w = STOP \/ w = START ->
  strings_ToLower (string_of_list_ascii data) = w <-> equal_fold data w.
Proof using Map_unicode_ToLower_commands.
  intros Hw. unfold strings_ToLower, equal_fold.
  destruct (isASCII (string_of_list_ascii data)) eqn:Ha; [reflexivity|].
  split; intros H.
  - destruct (Map_unicode_ToLower_commands _ Ha) as [H1 H2].
    destruct Hw; subst w; contradiction.
  - rewrite <- isASCII_lower_ascii, H in Ha.
    destruct Hw; subst w; discriminate Ha.
Qed.

Lemma equal_fold_no_outer_space data w :
  w = STOP \/ w = START -> equal_fold data w -> outer_space data = false.
Proof.
  intros Hw H. unfold equal_fold in H.
  rewrite <- outer_space_lower, <- lower_ascii_map, H.
  destruct Hw; subst w; reflexivity.
Qed.

Lemma ctl_writer_other j data :
  ~ equal_fold data STOP -> ~ equal_fold data START ->
  ctl_writer j data
  = Returned j 0 (Some (ErrUnknownCommand
                          (strings_ToLower (string_of_list_ascii data)))).
Proof using Map_unicode_ToLower_commands.
  intros Hstop Hstart. unfold ctl_writer.
  destruct (String.eqb_spec (strings_ToLower (string_of_list_ascii data)) STOP) as [E|_].
  { apply ToLower_command in E; [contradiction | now left]. }
  destruct (String.eqb_spec (strings_ToLower (string_of_list_ascii data)) START) as [E|_].
  { apply ToLower_command in E; [contradiction | now right]. }
  reflexivity.
Qed.

Lemma ctl_writer_stop j data :
  equal_fold data STOP ->
  ctl_writer j data
  = if negb (String.eqb (state (defn j)) STOPPED)
    then Parked (set_state j STOPPED) else Returned j (len data) None.
Proof using Map_unicode_ToLower_commands.
  intros H. apply ToLower_command in H; [|now left].
  unfold ctl_writer. rewrite H. reflexivity.
Qed.

Lemma ctl_writer_start j data :
  equal_fold data START ->
  ctl_writer j data
  = if negb (String.eqb (state (defn j)) STARTED)
    then Returned (spawn (set_state j STARTED)) (len data) None
    else Returned j (len data) None.
Proof using Map_unicode_ToLower_commands.
  intros H. apply ToLower_command in H; [|now right].
  unfold ctl_writer. rewrite H. reflexivity.
Qed.

(** The steps of the goroutines never assign to the definition. *)
Lemma run_step_defn j i ev j1 : run_step j i ev = Some j1 -> defn j1 = defn j.
Proof.
  unfold run_step. intros H.
  destruct (nth_error (tasks j) i) as [[]|]; destruct ev as [now|now [out|]|now];
    inversion H; reflexivity.
Qed.

Lemma recv_done_defn j i j1 : recv_done j i = Some j1 -> defn j1 = defn j.
Proof.
  unfold recv_done. intros H.
  destruct (nth_error (tasks j) i) as [[]|]; inversion H; reflexivity.
Qed.

Lemma task_steps_defn j j1 : task_steps j j1 -> defn j1 = defn j.
Proof.
  induction 1 as [|j i ev j1 j2 Hs _ IH]; [reflexivity|].
  rewrite IH. eapply run_step_defn; eassumption.
Qed.

(** ** Writes to the job files *)

(** C7: a ctl write whose payload is neither "start" nor "stop" up to case
    returns zero bytes and an unknown-command error, and the job (state,
    history, goroutines) is the one before the write. *)
Theorem ctl_unknown_command_unchanged (j : job) (data : bytes) (offset : Z) :
  ~ equal_fold data START -> ~ equal_fold data STOP ->
  exists e,
    jobfile_Write ctl_file j data offset = Returned j 0 (Some e)
    /\ kind_of e = unknown_command.
Proof using Map_unicode_ToLower_commands.
  intros Hstart Hstop. eexists. split.
  - unfold jobfile_Write. simpl. now apply ctl_writer_other.
  - reflexivity.
Qed.

(** C8: a write of any payload to the schedule, cmd or log file returns
    zero bytes and the permission error, and the job is unchanged. *)
Theorem readonly_write_denied (n : jobnode) (j : job) (data : bytes) (offset : Z) :
  n <> Nctl ->
  jobfile_Write (jobfile_of n) j data offset = Returned j 0 (Some Eperm)
  /\ kind_of Eperm = permission_denied.
Proof.
  intros Hn. split; [|reflexivity].
  destruct n; [contradiction| | |]; reflexivity.
Qed.

(** C9: "start" on a started job and "stop" on a stopped job return the
    payload length without touching the job; and after a whole write of
    either command a second, identical write does the same. *)
Theorem ctl_start_stop_idempotent (j : job) (data : bytes) :
  (equal_fold data START -> state (defn j) = STARTED ->
     ctl_writer j data = Returned j (len data) None)
  /\ (equal_fold data STOP -> state (defn j) = STOPPED ->
     ctl_writer j data = Returned j (len data) None)
  /\ (equal_fold data START \/ equal_fold data STOP ->
     forall j1 n e, ctl_write j data j1 n e ->
       n = len data /\ e = None
       /\ ctl_writer j1 data = Returned j1 (len data) None).
Proof using Map_unicode_ToLower_commands.
  split; [|split].
  - intros H Hst. rewrite (ctl_writer_start _ _ H), Hst. reflexivity.
  - intros H Hst. rewrite (ctl_writer_stop _ _ H), Hst. reflexivity.
  - intros [H|H] j1 n e Hw.
    + rewrite (ctl_writer_start j1 _ H).
      destruct Hw as [j1 n e Hr | jp jp' i j1 Hp _ _];
        rewrite (ctl_writer_start j _ H) in *.
      * destruct (String.eqb_spec (state (defn j)) STARTED) as [E|_];
          simpl in Hr; inversion Hr; subst; clear Hr.
        -- now rewrite E.
        -- repeat split; reflexivity.
      * destruct (negb _); discriminate Hp.
    + rewrite (ctl_writer_stop j1 _ H).
      destruct Hw as [j1 n e Hr | jp jp' i j1 Hp Hts Hrecv];
        rewrite (ctl_writer_stop j _ H) in *.
      * destruct (String.eqb_spec (state (defn j)) STOPPED) as [E|_];
          simpl in Hr; inversion Hr; subst; clear Hr.
        now rewrite E.
      * destruct (negb _); inversion Hp; subst jp.
        apply recv_done_defn in Hrecv. apply task_steps_defn in Hts.
        rewrite Hrecv, Hts. repeat split; reflexivity.
Qed.

(** C10: the payload is compared, after lowering, with the command words
    as they are: a write is accepted exactly when the whole payload equals
    a word up to case, and a payload that starts or ends with white space
    (a final newline included) gets the unknown-command error and leaves
    the job unchanged. *)
Theorem ctl_no_trimming (j : job) (data : bytes) :
  ((equal_fold data START \/ equal_fold data STOP) <->
     forall e, ctl_writer j data <> Returned j 0 (Some e))
  /\ (outer_space data = true ->
      exists e, ctl_writer j data = Returned j 0 (Some e)
                /\ kind_of e = unknown_command).
Proof using Map_unicode_ToLower_commands.
  split.
  - split.
    + intros [H|H] e.
      * rewrite (ctl_writer_start _ _ H). destruct (negb _); discriminate.
      * rewrite (ctl_writer_stop _ _ H). destruct (negb _); discriminate.
    + intros Hacc.
      destruct (string_dec (lower_ascii (string_of_list_ascii data)) START) as [E|N1];
        [now left|].
      destruct (string_dec (lower_ascii (string_of_list_ascii data)) STOP) as [E|N2];
        [now right|].
      exfalso. eapply Hacc. now apply ctl_writer_other.
  - intros Hsp.
    exists (ErrUnknownCommand (strings_ToLower (string_of_list_ascii data))).
    split; [|reflexivity].
    apply ctl_writer_other; intros H.
    + apply equal_fold_no_outer_space in H; [congruence | now left].
    + apply equal_fold_no_outer_space in H; [congruence | now right].
Qed.

(** ** [mkJob] *)

(** The four [Add] calls of [mkJob] cannot collide, so it always succeeds. *)
Lemma mkJob_ok def :
  mkJob def
  = Ok (mkJobRec def (ring_New 32) []
          [mkFile "ctl" 438 Nctl; mkFile "schedule" 292 Nsched;
           mkFile "cmd" 292 Ncmd; mkFile "log" 292 Nlog]).
Proof. reflexivity. Qed.

(** ** Reading a job file *)

Lemma len_skipn (cont : bytes) (offset : Z) :
  0 <= offset <= len cont ->
  len (skipn (Z.to_nat offset) cont) = len cont - offset.
Proof. unfold len. intros H. rewrite length_skipn. lia. Qed.

(** What [Read] does at an offset within the content: the copy fills the
    buffer from the rest of the content, and the count returned is the
    length of that rest, whatever the length of the buffer. *)
Lemma jobfile_Read_within jf j now buf offset cont :
  reader jf j now = Some cont ->
  0 <= offset <= len cont ->
  jobfile_Read jf j now buf offset
  = Some (copy buf (skipn (Z.to_nat offset) cont), (len cont - offset, None)).
Proof.
  intros Hr Ho. unfold jobfile_Read. rewrite Hr.
  destruct (Z.ltb_spec (len cont) offset) as [Hlt|_]; [lia|].
  now rewrite len_skipn.
Qed.

Lemma jobfile_Read_beyond jf j now buf offset cont :
  reader jf j now = Some cont ->
  len cont <= offset ->
  jobfile_Read jf j now buf offset = Some (buf, (0, None)).
Proof.
  intros Hr Ho. unfold jobfile_Read. rewrite Hr.
  destruct (Z.ltb_spec (len cont) offset) as [Hlt|Hge]; [reflexivity|].
  assert (offset = len cont) by lia. subst offset.
  replace (Z.to_nat (len cont)) with (List.length cont)
    by (unfold len; now rewrite Nat2Z.id).
  rewrite skipn_all. unfold copy. rewrite firstn_nil. reflexivity.
Qed.

Lemma length_copy dst src : List.length (copy dst src) = List.length dst.
Proof.
  unfold copy. rewrite length_app, length_firstn, length_skipn. lia.
Qed.

(** Whenever more than a buffer's worth of content lies beyond the offset,
    the count returned exceeds the length of the buffer. *)
Lemma jobfile_Read_overlong jf j now buf offset cont :
  reader jf j now = Some cont ->
  0 <= offset ->
  len buf < len cont - offset ->
  exists buf' n,
    jobfile_Read jf j now buf offset = Some (buf', (n, None))
    /\ len buf' = len buf /\ len buf < n.
Proof.
  intros Hr Ho Hlen.
  assert (Hb : 0 <= len buf) by (unfold len; lia).
  rewrite (jobfile_Read_within _ _ _ _ _ _ Hr) by lia.
  eexists _, _. split; [reflexivity|]. split; [|exact Hlen].
  unfold len. now rewrite length_copy.
Qed.

(** C3, at a concrete read: the cmd file of the job [hello] holds the seven
    bytes [echo hi]; a read at offset 0 into a buffer of three bytes copies
    three bytes and returns the count 7. *)
Theorem Read_count_exceeds_buffer :
  mkJob hello_def = Ok hello_job
  /\ jobfile_Read cmd_file hello_job 0 (list_ascii_of_string "???") 0
     = Some (list_ascii_of_string "ech", (7, None))
  /\ len (list_ascii_of_string "???") = 3.
Proof. repeat split. Qed.

(** ** The history ring *)

Lemma push_history j e :
  history (push j e) = skipn 1 (history j ++ [Some e]).
Proof. unfold push. simpl. destruct (history j); reflexivity. Qed.

Lemma skipn_1_app {A : Type} (l : list A) (x : A) (l2 : list A) :
  skipn 1 (l ++ [x]) ++ l2 = skipn 1 (l ++ x :: l2).
Proof. destruct l; simpl; [reflexivity|]. now rewrite <- app_assoc. Qed.

(** After the pushes [es] the ring holds what is left of its former values
    followed by the pushed entries once one value per push is dropped from
    the front. *)
Lemma pushes_history es : forall j,
  history (fold_left push es j)
  = skipn (List.length es) (history j ++ map Some es).
Proof.
  induction es as [|e es IH]; intros j; simpl fold_left.
  - simpl. now rewrite app_nil_r.
  - rewrite IH, push_history, skipn_1_app, skipn_skipn.
    simpl map. simpl List.length. now rewrite Nat.add_1_r.
Qed.

Lemma entries_app r1 r2 : entries (r1 ++ r2) = entries r1 ++ entries r2.
Proof. apply flat_map_app. Qed.

Lemma entries_Some es : entries (map Some es) = es.
Proof. induction es as [|e es IH]; simpl; [reflexivity|]. now rewrite IH. Qed.

Lemma entries_None r : Forall (fun v => v = None) r -> entries r = [].
Proof.
  induction 1 as [|v r Hv _ IH]; [reflexivity|]. subst v. exact IH.
Qed.

Lemma Forall_skipn {A : Type} (P : A -> Prop) n : forall l,
  Forall P l -> Forall P (skipn n l).
Proof.
  induction n as [|n IH]; intros l H; [exact H|].
  destruct H; simpl; [constructor | now apply IH].
Qed.

Lemma entries_after_pushes k es :
  entries (skipn (List.length es) (ring_New k ++ map Some es))
  = lastn (Nat.min (List.length es) k) es.
Proof.
  unfold ring_New, lastn.
  rewrite skipn_app, entries_app, repeat_length, skipn_map, entries_Some.
  rewrite entries_None.
  - simpl. f_equal. lia.
  - apply Forall_skipn. apply Forall_forall. intros v Hv.
    now apply repeat_spec in Hv.
Qed.

Lemma length_lastn {A : Type} n (l : list A) :
  List.length (lastn n l) = Nat.min n (List.length l).
Proof. unfold lastn. rewrite length_skipn. lia. Qed.

Lemma log_reader_entries r : forall acc,
  ring_Do r
    (fun result v =>
       match v with
       | Some s => result ++ list_ascii_of_string s
       | None => result
       end) acc
  = acc ++ flat_map list_ascii_of_string (entries r).
Proof.
  unfold ring_Do.
  induction r as [|[s|] r IH]; intros acc; simpl.
  - now rewrite app_nil_r.
  - now rewrite IH, app_assoc.
  - apply IH.
Qed.

(** Every step of a goroutine leaves the history alone or pushes one
    entry. *)
Lemma run_step_history j i ev j1 :
  run_step j i ev = Some j1 ->
  history j1 = history j \/ exists e, history j1 = history (push j e).
Proof.
  unfold run_step. intros H.
  destruct (nth_error (tasks j) i) as [[]|]; destruct ev as [now|now [out|]|now];
    inversion H; simpl; eauto.
Qed.

(** C4: after any [N] pushes on the history of a new job the ring holds
    at most 32 entries, namely the last [min N 32] pushed ones in the order
    of the pushes, and reading the log file yields their concatenation in
    that order. *)
Theorem history_keeps_last_32 (def : jobdef) (j : job) (es : list string) (now : Z) :
  mkJob def = Ok j ->
  let j' := fold_left push es j in
  (List.length (entries (history j')) <= 32)%nat
  /\ entries (history j') = lastn (Nat.min (List.length es) 32) es
  /\ reader log_file j' now
     = Some (flat_map list_ascii_of_string
               (lastn (Nat.min (List.length es) 32) es)).
Proof.
  intros Hmk j'. rewrite mkJob_ok in Hmk. inversion Hmk; subst j; clear Hmk.
  assert (He : entries (history j') = lastn (Nat.min (List.length es) 32) es).
  { unfold j'. rewrite pushes_history. apply entries_after_pushes. }
  split; [|split].
  - rewrite He, length_lastn. lia.
  - exact He.
  - simpl. rewrite log_reader_entries, He. reflexivity.
Qed.

(** ** The clone file and the jobs directory *)

Lemma MatchString_nonword_forallb nm :
  MatchString_nonword nm = negb (forallb is_word (list_ascii_of_string nm)).
Proof.
  induction nm as [|c nm IH]; simpl; [reflexivity|].
  rewrite IH. now destruct (is_word c).
Qed.

(** The names the code accepts are those of the specification and the
    empty name. *)
Lemma accepted_name nm :
  MatchString_nonword nm = false <-> nm = EmptyString \/ spec_valid_name nm = true.
Proof.
  rewrite MatchString_nonword_forallb. destruct nm as [|c nm].
  - simpl. tauto.
  - unfold spec_valid_name. rewrite negb_false_iff.
    split; [now right | intros [H|H]; [discriminate | exact H]].
Qed.

Lemma mkJobDefinition_Ok nm sc cm def :
  mkJobDefinition nm sc cm = Ok def <->
  MatchString_nonword nm = false
  /\ (exists e, cronexpr_Parse sc = inl e)
  /\ def = mkJobdef nm sc cm STOPPED.
Proof.
  unfold mkJobDefinition.
  destruct (MatchString_nonword nm); [split; [discriminate | intros [H _]; discriminate]|].
  destruct (cronexpr_Parse sc) as [e|msg].
  - split.
    + intros H. inversion H. eauto.
    + intros (_ & _ & ->). reflexivity.
  - split; [discriminate | intros (_ & [e He] & _); discriminate].
Qed.

Lemma mkJobDefinition_Err nm sc cm e :
  mkJobDefinition nm sc cm = Err e ->
  kind_of e = invalid_definition
  /\ (MatchString_nonword nm = true \/ exists msg, cronexpr_Parse sc = inr msg).
Proof.
  unfold mkJobDefinition.
  destruct (MatchString_nonword nm).
  - intros H. inversion H. auto.
  - destruct (cronexpr_Parse sc) as [ex|msg]; intros H; inversion H. eauto.
Qed.

Lemma File_Add_Err {A : Type} (dir : list (File A)) nm mode x e :
  File_Add dir nm mode x = Err e -> e = Eexist.
Proof.
  unfold File_Add. destruct (existsb _ dir); intros H; now inversion H.
Qed.

Lemma addJob_Err jd def e : addJob jd def = Err e -> e = Eexist.
Proof.
  unfold addJob. rewrite mkJob_ok. simpl. apply File_Add_Err.
Qed.

Lemma existsb_Name {A : Type} (dir : list (File A)) nm :
  existsb (fun f => String.eqb (Name f) nm) dir = true <-> In nm (map Name dir).
Proof.
  rewrite existsb_exists, in_map_iff. split.
  - intros (f & Hin & Heq). apply String.eqb_eq in Heq. eauto.
  - intros (f & Heq & Hin). exists f. split; [exact Hin|]. now apply String.eqb_eq.
Qed.

(** [addJob] either appends one child with a new name or fails and leaves
    the directory as it was, so names stay distinct. *)
Lemma addJob_Ok jd def jd' :
  addJob jd def = Ok jd' ->
  ~ In (name def) (map Name jd)
  /\ exists j, mkJob def = Ok j
       /\ jd' = jd ++ [mkFile (name def) (Z.lor DMDIR 365) j].
Proof.
  unfold addJob. rewrite mkJob_ok. simpl. unfold File_Add.
  destruct (existsb _ jd) eqn:E; intros H; inversion H.
  split.
  - rewrite <- existsb_Name. congruence.
  - eauto.
Qed.

Lemma addJob_NoDup jd def jd' :
  NoDup (map Name jd) -> addJob jd def = Ok jd' -> NoDup (map Name jd').
Proof.
  intros Hnd H. apply addJob_Ok in H. destruct H as (Hnew & j & _ & ->).
  rewrite map_app. simpl.
  apply NoDup_rev in Hnd. rewrite <- (rev_involutive (_ ++ _)).
  apply NoDup_rev. rewrite rev_app_distr. simpl. constructor; [|exact Hnd].
  now rewrite <- in_rev.
Qed.

Lemma MatchString_nonword_true nm :
  MatchString_nonword nm = true <->
  exists c, In c (list_ascii_of_string nm) /\ is_word c = false.
Proof.
  rewrite MatchString_nonword_forallb, negb_true_iff.
  rewrite <- not_true_iff_false, forallb_forall. split.
  - intros H. induction (list_ascii_of_string nm) as [|c l IH].
    + exfalso. apply H. intros x [].
    + destruct (is_word c) eqn:Hc.
      * destruct IH as (x & Hin & Hx).
        { intros Hall. apply H. intros x [<-|Hin]; [exact Hc | now apply Hall]. }
        exists x. split; [now right | exact Hx].
      * exists c. split; [now left | exact Hc].
  - intros (c & Hin & Hc) Hall. rewrite (Hall c Hin) in Hc. discriminate Hc.
Qed.

Lemma turned_down_iff data :
  turned_down data <->
  List.length (strings_Split (string_of_list_ascii data) ":") <> 3%nat
  \/ exists p0 p1 p2,
       strings_Split (string_of_list_ascii data) ":" = [p0; p1; p2]
       /\ (MatchString_nonword p0 = true
           \/ exists msg, cronexpr_Parse p1 = inr msg).
Proof.
  unfold turned_down.
  destruct (strings_Split (string_of_list_ascii data) ":")
    as [|p0 [|p1 [|p2 [|p3 rest]]]]; simpl;
    try (split; [intros _; left; discriminate | trivial]).
  split.
  - intros H. right. exists p0, p1, p2. split; [reflexivity | exact H].
  - intros [H|(q0 & q1 & q2 & Heq & H)]; [now destruct H|].
    inversion Heq; subst. exact H.
Qed.

(** What [clonefile.Write] does with a payload as a definition: a clone
    write fails with an invalid-definition error exactly when the payload does not split on ':' into three fields,
    or the name holds a character outside [[A-Za-z0-9_]], or the schedule
    does not parse; such a write consumes nothing and leaves the daemon as
    it was; any other payload yields the definition made of its three
    fields, in state STOPPED. *)
Theorem clone_write_invalid_definition (d : daemon) (data : bytes) (offset : Z) :
  ((exists e, snd (snd (clonefile_Write d data offset)) = Some e
              /\ kind_of e = invalid_definition)
   <-> turned_down data)
  /\ (turned_down data ->
      exists e, clonefile_Write d data offset = (d, (0, Some e)))
  /\ (~ turned_down data ->
      exists p0 p1 p2,
        strings_Split (string_of_list_ascii data) ":" = [p0; p1; p2]
        /\ mkJobDefinition p0 p1 p2 = Ok (mkJobdef p0 p1 p2 STOPPED)).
Proof.
  unfold turned_down, clonefile_Write.
  destruct (strings_Split (string_of_list_ascii data) ":")
    as [|p0 [|p1 [|p2 [|p3 rest]]]];
    try (split; [split; [trivial | intros _; eexists; split; reflexivity]
                | split; [intros _; eexists; reflexivity
                         | intros H; destruct (H I)]]).
  destruct (mkJobDefinition p0 p1 p2) as [def|e] eqn:Hdef.
  - apply mkJobDefinition_Ok in Hdef. destruct Hdef as (Hnm & [ex Hex] & ->).
    assert (Hnot : ~ (MatchString_nonword p0 = true
                      \/ exists msg, cronexpr_Parse p1 = inr msg)).
    { intros [H|[msg H]]; [rewrite Hnm in H | rewrite Hex in H]; discriminate H. }
    split; [split|split].
    + intros (e & He & Hk). exfalso.
      destruct (addJob (jobsroot d) _) as [root'|e'] eqn:Hadd.
      * destruct (os_OpenFile (jobsdb d)) as [db|e'] eqn:Hopen;
          simpl in He; [discriminate|].
        unfold os_OpenFile in Hopen. destruct (open_error (jobsdb d));
          inversion Hopen; subst e'. inversion He; subst e. discriminate Hk.
      * apply addJob_Err in Hadd. subst e'. simpl in He.
        inversion He; subst e. discriminate Hk.
    + intros H. destruct (Hnot H).
    + intros H. destruct (Hnot H).
    + intros _. exists p0, p1, p2. split; [reflexivity|].
      apply mkJobDefinition_Ok. eauto.
  - apply mkJobDefinition_Err in Hdef. destruct Hdef as [Hk Hbad].
    split; [split|split].
    + intros _. exact Hbad.
    + intros _. exists e. split; [reflexivity | exact Hk].
    + intros _. exists e. reflexivity.
    + intros H. destruct (H Hbad).
Qed.

(** C5: a clone write of a valid definition whose name is that of a child
    of the jobs directory fails in [addJob] with the duplicate-name error
    and leaves the daemon, hence the directory and every job in it, as it
    was. *)
Theorem clone_duplicate_name (d : daemon) (data : bytes) (offset : Z)
    (p0 p1 p2 : string) (def : jobdef) :
  strings_Split (string_of_list_ascii data) ":" = [p0; p1; p2] ->
  mkJobDefinition p0 p1 p2 = Ok def ->
  In (name def) (map Name (jobsroot d)) ->
  addJob (jobsroot d) def = Err Eexist
  /\ kind_of Eexist = duplicate_name
  /\ clonefile_Write d data offset = (d, (len data, Some Eexist)).
Proof.
  intros Hsplit Hdef Hin.
  assert (Hadd : addJob (jobsroot d) def = Err Eexist).
  { unfold addJob. rewrite mkJob_ok. simpl. unfold File_Add.
    apply existsb_Name in Hin. now rewrite Hin. }
  split; [exact Hadd | split; [reflexivity|]].
  unfold clonefile_Write. now rewrite Hsplit, Hdef, Hadd.
Qed.

(** When the definitions file does not open, the job has been added
    already and stays; the error of the open is returned. *)
Lemma clone_write_open_failure d data offset p0 p1 p2 def root' msg :
  strings_Split (string_of_list_ascii data) ":" = [p0; p1; p2] ->
  mkJobDefinition p0 p1 p2 = Ok def ->
  addJob (jobsroot d) def = Ok root' ->
  open_error (jobsdb d) = Some msg ->
  clonefile_Write d data offset
  = (mkDaemon root' (jobsdb d), (len data, Some (ErrOS msg))).
Proof.
  intros Hsplit Hdef Hadd Hopen. unfold clonefile_Write, os_OpenFile.
  now rewrite Hsplit, Hdef, Hadd, Hopen.
Qed.

(** What a clone write that reports success has done: the job was added
    first, then the definitions file was opened; the line is in the file
    only if the write to it did not fail. *)
Lemma clone_write_success d data offset d' n :
  clonefile_Write d data offset = (d', (n, None)) ->
  n = len data
  /\ open_error (jobsdb d) = None
  /\ (exists p0 p1 p2,
        strings_Split (string_of_list_ascii data) ":" = [p0; p1; p2]
        /\ addJob (jobsroot d) (mkJobdef p0 p1 p2 STOPPED) = Ok (jobsroot d'))
  /\ content (jobsdb d')
     = match write_error (jobsdb d) with
       | None => (content (jobsdb d) ++ string_of_list_ascii data ++ nl)%string
       | Some _ => content (jobsdb d)
       end.
Proof.
  unfold clonefile_Write.
  destruct (strings_Split (string_of_list_ascii data) ":")
    as [|p0 [|p1 [|p2 [|p3 rest]]]]; try discriminate.
  destruct (mkJobDefinition p0 p1 p2) as [def|e] eqn:Hdef; [|discriminate].
  apply mkJobDefinition_Ok in Hdef. destruct Hdef as (_ & _ & ->).
  destruct (addJob (jobsroot d) _) as [root'|e] eqn:Hadd; [|discriminate].
  unfold os_OpenFile, Fprintf_line.
  destruct (open_error (jobsdb d)) eqn:Hopen; [discriminate|].
  intros H. inversion H; subst; clear H. simpl.
  repeat split; eauto 6.
  - destruct (write_error (jobsdb d)); reflexivity.
Qed.

(** ** Goroutines and the state of a job *)

Lemma count_listening_app ts1 ts2 :
  count_listening (ts1 ++ ts2) = (count_listening ts1 + count_listening ts2)%nat.
Proof. unfold count_listening. now rewrite filter_app, length_app. Qed.

Lemma count_listening_set_nth ts : forall i p q,
  nth_error ts i = Some p ->
  (count_listening (set_nth ts i q) + weight p
   = count_listening ts + weight q)%nat.
Proof.
  unfold count_listening, weight.
  induction ts as [|t ts IH]; intros [|i] p q H; simpl in H; try discriminate.
  - inversion H; subst t. simpl. destruct (listening p), (listening q); simpl; lia.
  - specialize (IH i p q H). simpl. destruct (listening t); simpl; lia.
Qed.

Lemma existsb_listening ts :
  existsb listening ts = true <-> (0 < count_listening ts)%nat.
Proof.
  unfold count_listening. induction ts as [|t ts IH]; simpl.
  - split; [discriminate | lia].
  - destruct (listening t); simpl; [split; [lia | reflexivity] | exact IH].
Qed.

(** With a schedule that parses, a step of a goroutine keeps the number of
    listening goroutines: the loop head always reaches the [select]. *)
Lemma run_step_listening j i ev j1 :
  (exists e, cronexpr_Parse (schedule (defn j)) = inl e) ->
  run_step j i ev = Some j1 ->
  count_listening (tasks j1) = count_listening (tasks j).
Proof.
  intros [e He] H. unfold run_step in H.
  destruct (nth_error (tasks j) i) as [p|] eqn:Hp; [|discriminate].
  assert (Hh : forall j', defn j' = defn j -> loop_head j' = AtSelect).
  { intros j' Hd. unfold loop_head. now rewrite Hd, He. }
  destruct p, ev as [now|now [out|]|now]; inversion H; subst j1; clear H;
    unfold set_task, set_tasks; cbn [tasks];
    rewrite ?Hh by reflexivity;
    match goal with
    | |- context [set_nth _ i ?q] =>
        pose proof (count_listening_set_nth _ i _ q Hp) as Hc
    end; unfold weight in Hc; simpl in Hc; simpl; lia.
Qed.

Lemma recv_done_listening j i j1 :
  recv_done j i = Some j1 ->
  S (count_listening (tasks j1)) = count_listening (tasks j).
Proof.
  unfold recv_done. intros H.
  destruct (nth_error (tasks j) i) as [p|] eqn:Hp; [|discriminate].
  destruct p; inversion H; subst j1; clear H.
  pose proof (count_listening_set_nth _ i _ GotDone Hp) as Hc.
  unfold weight in Hc. simpl in *. lia.
Qed.

Lemma coherent_step s e s' :
  (exists ex, cronexpr_Parse (schedule (defn (sjob s))) = inl ex) ->
  coherent s -> step s e = Some s' ->
  coherent s' /\ schedule (defn (sjob s')) = schedule (defn (sjob s)).
Proof.
  intros Hparse Hco Hstep. destruct s as [j snd]. simpl in *.
  destruct e as [n data|i|i ev]; simpl in Hstep.
  - destruct snd as [w|]; [discriminate|].
    destruct n; simpl in Hstep;
      try (inversion Hstep; subst s'; now split).
    unfold jobfile_Write in Hstep. simpl in Hstep. unfold ctl_writer in Hstep.
    destruct (String.eqb _ STOP).
    + destruct (String.eqb_spec (state (defn j)) STOPPED) as [E|N];
        simpl in Hstep; inversion Hstep; subst s'; clear Hstep;
        [now split|]. split; [|reflexivity].
      unfold coherent in *. simpl in *.
      destruct Hco as [(Hs & _ & Hn)|[(Hs & Hw & _)|(Hs & _ & _)]];
        try contradiction.
      right; left. repeat split; [discriminate | exact Hn].
    + destruct (String.eqb _ START); [|inversion Hstep; subst s'; now split].
      destruct (String.eqb_spec (state (defn j)) STARTED) as [E|N];
        simpl in Hstep; inversion Hstep; subst s'; clear Hstep;
        [now split|]. split; [|reflexivity].
      unfold coherent in *. simpl in *.
      destruct Hco as [(Hs & _ & _)|[(_ & Hw & _)|(_ & _ & Hn)]];
        try contradiction.
      left. repeat split. rewrite count_listening_app, Hn. reflexivity.
  - destruct snd as [w|]; [|discriminate].
    destruct (recv_done j i) as [j1|] eqn:Hr; [|discriminate].
    inversion Hstep; subst s'; clear Hstep. simpl.
    pose proof (recv_done_defn _ _ _ Hr) as Hd.
    pose proof (recv_done_listening _ _ _ Hr) as Hc.
    split; [|now rewrite Hd].
    unfold coherent in *. simpl in *. rewrite Hd.
    destruct Hco as [(_ & Hw & _)|[(Hs & _ & Hn)|(_ & Hw & _)]];
      try discriminate.
    right; right. repeat split; [exact Hs | lia].
  - destruct (run_step j i ev) as [j1|] eqn:Hr; [|discriminate].
    inversion Hstep; subst s'; clear Hstep. simpl.
    pose proof (run_step_defn _ _ _ _ Hr) as Hd.
    pose proof (run_step_listening _ _ _ _ Hparse Hr) as Hc.
    split; [|now rewrite Hd].
    unfold coherent in *. simpl in *. rewrite Hd, Hc. exact Hco.
Qed.

Lemma coherent_run_events es : forall s s',
  (exists ex, cronexpr_Parse (schedule (defn (sjob s))) = inl ex) ->
  coherent s -> run_events s es = Some s' -> coherent s'.
Proof.
  induction es as [|e es IH]; intros s s' Hparse Hco Hrun; simpl in Hrun.
  - inversion Hrun; subst s'. exact Hco.
  - destruct (step s e) as [s1|] eqn:Hstep; [|discriminate].
    destruct (coherent_step _ _ _ Hparse Hco Hstep) as [Hco1 Hsch].
    apply (IH s1); [now rewrite Hsch | exact Hco1 | exact Hrun].
Qed.

(** C2, as the code has it: on a job made from a valid definition, after
    any sequence of file writes and goroutine steps, at most one goroutine
    has not yet taken the stop signal, and there is one exactly when the
    state is STARTED or a stop write still waits to hand the signal over;
    so between writes such a goroutine is present if and only if the state
    is STARTED. *)
Theorem listening_task_iff_started (nm sc cm : string) (def : jobdef) (j : job)
    (es : list event) (s : sys) :
  mkJobDefinition nm sc cm = Ok def ->
  mkJob def = Ok j ->
  run_events (mkSys j None) es = Some s ->
  (count_listening (tasks (sjob s)) <= 1)%nat
  /\ (existsb listening (tasks (sjob s)) = true
      <-> state (defn (sjob s)) = STARTED \/ sending s <> None)
  /\ (sending s = None ->
      (existsb listening (tasks (sjob s)) = true
       <-> state (defn (sjob s)) = STARTED)).
Proof.
  intros Hdef Hmk Hrun.
  apply mkJobDefinition_Ok in Hdef. destruct Hdef as (_ & Hparse & ->).
  rewrite mkJob_ok in Hmk. inversion Hmk; subst j; clear Hmk.
  assert (Hco : coherent s).
  { eapply coherent_run_events; [| |exact Hrun]; [exact Hparse|].
    right; right. repeat split. }
  unfold coherent in Hco. rewrite !existsb_listening.
  destruct Hco as [(Hs & Hw & Hn)|[(Hs & Hw & Hn)|(Hs & Hw & Hn)]];
    rewrite Hn, Hs; (split; [lia|]); split.
  - split; [now left | lia].
  - intros _. split; [reflexivity | lia].
  - split; [now right | lia].
  - intros Hnone. contradiction.
  - split; [lia | intros [H|H]; [discriminate H | contradiction]].
  - intros _. split; [lia | discriminate].
Qed.

(** * Further properties of the code *)

(** ** Splitting a payload *)

Lemma string_app_assoc a b c : ((a ++ b) ++ c = a ++ (b ++ c))%string.
Proof. induction a as [|x a IH]; simpl; [reflexivity|]. now rewrite IH. Qed.

Lemma string_app_nil_r a : (a ++ EmptyString)%string = a.
Proof. induction a as [|x a IH]; simpl; [reflexivity|]. now rewrite IH. Qed.

Lemma list_ascii_of_string_app a b :
  list_ascii_of_string (a ++ b)%string
  = list_ascii_of_string a ++ list_ascii_of_string b.
Proof. induction a as [|x a IH]; simpl; [reflexivity|]. now rewrite IH. Qed.

Lemma Split_nonempty s sep : strings_Split s sep <> [].
Proof.
  destruct s as [|c s]; simpl; [discriminate|].
  destruct (Ascii.eqb c sep); [discriminate|].
  destruct (strings_Split s sep); discriminate.
Qed.

(** There is one field more than there are separators. *)
Lemma length_Split data sep :
  List.length (strings_Split (string_of_list_ascii data) sep)
  = S (count_occ ascii_dec data sep).
Proof.
  induction data as [|c data IH]; simpl; [reflexivity|].
  destruct (Ascii.eqb_spec c sep) as [->|Hne].
  - simpl. rewrite IH. now destruct (ascii_dec sep sep).
  - destruct (ascii_dec c sep) as [E|_]; [contradiction|].
    destruct (strings_Split (string_of_list_ascii data) sep) eqn:E;
      [now apply Split_nonempty in E | exact IH].
Qed.

(** Joining the fields with the separator gives the string back. *)
Lemma concat_Split s sep :
  String.concat (String sep EmptyString) (strings_Split s sep) = s.
Proof.
  induction s as [|c s IH]; simpl; [reflexivity|].
  destruct (Ascii.eqb_spec c sep) as [->|Hne].
  - destruct (strings_Split s sep) as [|f fs] eqn:E;
      [now apply Split_nonempty in E|].
    simpl in *. now rewrite IH.
  - destruct (strings_Split s sep) as [|f fs] eqn:E;
      [now apply Split_nonempty in E|].
    destruct fs as [|g fs]; simpl in *; now rewrite <- IH.
Qed.

(** A field followed by a separator is split off as it is when it holds
    no separator. *)
Lemma Split_field f sep rest :
  ~ In sep (list_ascii_of_string f) ->
  strings_Split (f ++ String sep rest)%string sep = f :: strings_Split rest sep.
Proof.
  induction f as [|c f IH]; intros Hno; simpl.
  - now rewrite Ascii.eqb_refl.
  - destruct (Ascii.eqb_spec c sep) as [->|Hne].
    + exfalso. apply Hno. now left.
    + rewrite IH; [reflexivity|]. intros H. apply Hno. now right.
Qed.

Lemma Split_last_field f sep :
  ~ In sep (list_ascii_of_string f) -> strings_Split f sep = [f].
Proof.
  induction f as [|c f IH]; intros Hno; simpl; [reflexivity|].
  destruct (Ascii.eqb_spec c sep) as [->|Hne].
  - exfalso. apply Hno. now left.
  - rewrite IH; [reflexivity|]. intros H. apply Hno. now right.
Qed.

Lemma Split_three nm sc cm :
  ~ In ":"%char (list_ascii_of_string nm) ->
  ~ In ":"%char (list_ascii_of_string sc) ->
  ~ In ":"%char (list_ascii_of_string cm) ->
  strings_Split (nm ++ ":" ++ sc ++ ":" ++ cm)%string ":" = [nm; sc; cm].
Proof.
  intros H0 H1 H2. change (":" ++ sc ++ ":" ++ cm)%string
    with (String ":" (sc ++ String ":" cm)).
  now rewrite (Split_field nm), (Split_field sc), (Split_last_field cm).
Qed.

Lemma nonword_colon nm :
  MatchString_nonword nm = false -> ~ In ":"%char (list_ascii_of_string nm).
Proof.
  induction nm as [|c nm IH]; simpl; [intros _ []|].
  intros H. apply orb_false_iff in H. destruct H as [Hc Hnm].
  intros [->|Hin]; [discriminate Hc | now apply IH].
Qed.

(** X1: a payload that does not hold exactly two ':' bytes, so in
    particular one whose command holds a ':', is refused as an invalid job
    definition; nothing is consumed and the daemon is as before. *)
Theorem clone_write_colon_count (d : daemon) (data : bytes) (offset : Z) :
  count_occ ascii_dec data ":"%char <> 2%nat ->
  clonefile_Write d data offset
  = (d, (0, Some (ErrInvalidJobDefinition (string_of_list_ascii data)))).
Proof.
  intros Hc. unfold clonefile_Write.
  pose proof (length_Split data ":"%char) as Hl.
  destruct (strings_Split (string_of_list_ascii data) ":")
    as [|p0 [|p1 [|p2 [|p3 rest]]]]; try reflexivity.
  simpl in Hl. exfalso. apply Hc. now inversion Hl.
Qed.

(** ** One clone write *)

Lemma lines_of_app r1 r2 : lines_of (r1 ++ r2) = (lines_of r1 ++ lines_of r2)%string.
Proof.
  induction r1 as [|f r1 IH]; simpl; [reflexivity|].
  now rewrite IH, string_app_assoc.
Qed.

(** What one clone write does to the daemon, case by case. *)
Lemma clone_write_cases d data offset :
  let d' := fst (clonefile_Write d data offset) in
  open_error (jobsdb d') = open_error (jobsdb d)
  /\ write_error (jobsdb d') = write_error (jobsdb d)
  /\ ((jobsroot d' = jobsroot d /\ content (jobsdb d') = content (jobsdb d))
      \/ exists f,
           jobsroot d' = jobsroot d ++ [f]
           /\ registered f
           /\ ~ In (Name f) (map Name (jobsroot d))
           /\ (string_of_list_ascii data ++ nl)%string = line_of f
           /\ content (jobsdb d')
              = match open_error (jobsdb d), write_error (jobsdb d) with
                | None, None => (content (jobsdb d) ++ line_of f)%string
                | _, _ => content (jobsdb d)
                end).
Proof.
  unfold clonefile_Write.
  pose proof (concat_Split (string_of_list_ascii data) ":"%char) as Hjoin.
  destruct (strings_Split (string_of_list_ascii data) ":")
    as [|p0 [|p1 [|p2 [|p3 rest]]]]; simpl; auto.
  destruct (mkJobDefinition p0 p1 p2) as [def|e] eqn:Hdef; simpl; auto.
  destruct (addJob (jobsroot d) def) as [root'|e] eqn:Hadd; simpl; auto.
  pose proof Hdef as Hdef'.
  apply mkJobDefinition_Ok in Hdef'. destruct Hdef' as (_ & _ & ->).
  apply addJob_Ok in Hadd. destruct Hadd as (Hnew & j & Hmk & ->).
  rewrite mkJob_ok in Hmk. inversion Hmk; subst j; clear Hmk.
  set (f := mkFile p0 (Z.lor DMDIR 365)
              (mkJobRec (mkJobdef p0 p1 p2 STOPPED) (ring_New 32) []
                 [mkFile "ctl" 438 Nctl; mkFile "schedule" 292 Nsched;
                  mkFile "cmd" 292 Ncmd; mkFile "log" 292 Nlog])).
  assert (Hline : (string_of_list_ascii data ++ nl)%string = line_of f).
  { unfold line_of. simpl. rewrite <- Hjoin. simpl.
    rewrite string_app_assoc. simpl. now rewrite string_app_assoc. }
  assert (Hreg : registered f) by (repeat split; exact Hdef).
  unfold os_OpenFile, Fprintf_line.
  destruct (open_error (jobsdb d)) eqn:Hopen; simpl;
    [|destruct (write_error (jobsdb d)) eqn:Hwrite; simpl];
    (split; [assumption || reflexivity|]);
    (split; [assumption || reflexivity|]);
    right; exists f; repeat (split; [assumption || reflexivity|]);
    rewrite ?Hline; reflexivity.
Qed.

(** X2: create and inspect.  For a name of word characters that no child
    of the jobs directory has, a schedule that parses and a command, the
    latter two without ':', a write of [name:schedule:command] to the clone
    file with a healthy definitions file consumes the whole payload, adds
    one job under that name and appends the payload and a newline to the
    file; the cmd file of the new job reads the command, its schedule file
    the schedule, its ctl file [stopped], and its log file nothing. *)
Theorem clone_create_then_read (d : daemon) (nm sc cm : string) (ex : Expression)
    (offset now : Z) :
  MatchString_nonword nm = false ->
  cronexpr_Parse sc = inl ex ->
  ~ In ":"%char (list_ascii_of_string sc) ->
  ~ In ":"%char (list_ascii_of_string cm) ->
  ~ In nm (map Name (jobsroot d)) ->
  healthy (jobsdb d) ->
  let payload := (nm ++ ":" ++ sc ++ ":" ++ cm)%string in
  exists j,
    clonefile_Write d (list_ascii_of_string payload) offset
    = (mkDaemon (jobsroot d ++ [mkFile nm (Z.lor DMDIR 365) j])
         (mkHostfile None None (content (jobsdb d) ++ payload ++ nl)%string),
       (len (list_ascii_of_string payload), None))
    /\ reader cmd_file j now = Some (list_ascii_of_string cm)
    /\ reader sched_file j now = Some (list_ascii_of_string sc)
    /\ reader ctl_file j now = Some (list_ascii_of_string STOPPED)
    /\ reader log_file j now = Some [].
Proof.
  intros Hnm Hsc Hsc_colon Hcm_colon Hnew [Hopen Hwrite] payload.
  eexists. split.
  - unfold clonefile_Write. rewrite string_of_list_ascii_of_string.
    unfold payload at 1.
    rewrite (Split_three nm sc cm (nonword_colon _ Hnm) Hsc_colon Hcm_colon).
    unfold mkJobDefinition. rewrite Hnm, Hsc.
    unfold addJob. rewrite mkJob_ok. simpl bind. unfold File_Add.
    destruct (existsb _ (jobsroot d)) eqn:E.
    { apply existsb_Name in E. contradiction. }
    unfold os_OpenFile, Fprintf_line. rewrite Hopen, Hwrite. simpl.
    rewrite ?Hopen. reflexivity.
  - repeat split.
Qed.

(** ** Sequences of clone writes *)

Lemma NoDup_snoc {A : Type} (l : list A) (x : A) :
  NoDup l -> ~ In x l -> NoDup (l ++ [x]).
Proof.
  intros Hnd Hx. induction Hnd as [|y l Hy Hnd IH]; simpl.
  - constructor; [intros [] | constructor].
  - constructor.
    + rewrite in_app_iff. intros [H|[H|[]]]; [now apply Hy|].
      apply Hx. now left.
    + apply IH. intros H. apply Hx. now right.
Qed.

(** X3: along any sequence of clone writes the children of the jobs
    directory keep distinct names, the children present before stay where
    they were, untouched, each write adds at most one child, and every
    child added is a job as [mkJob] builds it from a definition that
    [mkJobDefinition] accepted, under the name of that definition and with
    mode [DMDIR|0555]. *)
Theorem clone_writes_registry (d : daemon) (datas : list bytes) :
  NoDup (map Name (jobsroot d)) ->
  exists added,
    jobsroot (clone_writes d datas) = jobsroot d ++ added
    /\ (List.length added <= List.length datas)%nat
    /\ Forall registered added
    /\ NoDup (map Name (jobsroot (clone_writes d datas))).
Proof.
  revert d. induction datas as [|data datas IH]; intros d Hnd.
  - exists []. simpl. rewrite app_nil_r. repeat split; auto.
  - unfold clone_writes. simpl fold_left.
    fold (clone_writes (fst (clonefile_Write d data 0)) datas).
    destruct (clone_write_cases d data 0) as (_ & _ & [[Hroot _]|(f & Hroot & Hreg & Hnew & _)]).
    + destruct (IH (fst (clonefile_Write d data 0))) as (added & Heq & Hlen & Hall & Hnd').
      { now rewrite Hroot. }
      exists added. split; [now rewrite Heq, Hroot|].
      split; [simpl; lia|]. split; [exact Hall | exact Hnd'].
    + destruct (IH (fst (clonefile_Write d data 0))) as (added & Heq & Hlen & Hall & Hnd').
      { rewrite Hroot, map_app. simpl. now apply NoDup_snoc. }
      exists (f :: added). split; [now rewrite Heq, Hroot, <- app_assoc|].
      split; [simpl; lia|]. split; [now constructor | exact Hnd'].
Qed.

Lemma clone_writes_in_step (d : daemon) (datas : list bytes) :
  healthy (jobsdb d) ->
  content (jobsdb d) = lines_of (jobsroot d) ->
  healthy (jobsdb (clone_writes d datas))
  /\ content (jobsdb (clone_writes d datas))
     = lines_of (jobsroot (clone_writes d datas)).
Proof.
  revert d. induction datas as [|data datas IH]; intros d Hh Hc.
  - now split.
  - unfold clone_writes. simpl fold_left.
    fold (clone_writes (fst (clonefile_Write d data 0)) datas).
    destruct Hh as [Hopen Hwrite].
    destruct (clone_write_cases d data 0)
      as (Ho & Hw & [[Hroot Hcont]|(f & Hroot & _ & _ & _ & Hcont)]);
      apply IH.
    + split; congruence.
    + now rewrite Hroot, Hcont.
    + split; congruence.
    + rewrite Hcont, Hopen, Hwrite, Hroot, lines_of_app, Hc. simpl.
      now rewrite string_app_nil_r.
Qed.

Lemma line_of_record f : line_of f = (record_of f ++ nl)%string.
Proof.
  unfold line_of, record_of.
  rewrite string_app_assoc. simpl. now rewrite string_app_assoc.
Qed.

Lemma string_app_inv_tail a b c : (a ++ c)%string = (b ++ c)%string -> a = b.
Proof.
  intros H. apply (f_equal list_ascii_of_string) in H.
  rewrite !list_ascii_of_string_app in H. apply app_inv_tail in H.
  apply (f_equal string_of_list_ascii) in H.
  now rewrite !string_of_list_ascii_of_string in H.
Qed.

(** A child added by a write of a payload without a newline has a record
    without one: the record is the payload. *)
Lemma clone_writes_newline_free (d : daemon) (datas : list bytes) :
  Forall (fun f => newline_free (record_of f)) (jobsroot d) ->
  Forall (fun data => ~ In newline data) datas ->
  Forall (fun f => newline_free (record_of f))
    (jobsroot (clone_writes d datas)).
Proof.
  revert d. induction datas as [|data datas IH]; intros d Hroot Hdatas.
  - exact Hroot.
  - unfold clone_writes. simpl fold_left.
    fold (clone_writes (fst (clonefile_Write d data 0)) datas).
    inversion Hdatas as [|x l Hdata Hrest]; subst.
    apply IH; [|exact Hrest].
    destruct (clone_write_cases d data 0)
      as (_ & _ & [[Hr _]|(f & Hr & _ & _ & Hline & _)]); rewrite Hr;
      [exact Hroot|].
    apply Forall_app. split; [exact Hroot|]. constructor; [|constructor].
    rewrite line_of_record in Hline. apply string_app_inv_tail in Hline.
    unfold newline_free. rewrite <- Hline, list_ascii_of_string_of_list_ascii.
    exact Hdata.
Qed.

(** A file of records without newlines, each followed by one, splits at
    the newlines into the records and an empty rest. *)
Lemma Split_lines_of root :
  Forall (fun f => newline_free (record_of f)) root ->
  strings_Split (lines_of root) newline = map record_of root ++ [EmptyString].
Proof.
  induction 1 as [|f root Hf _ IH]; [reflexivity|].
  simpl lines_of. rewrite line_of_record, string_app_assoc.
  change (nl ++ lines_of root)%string with (String newline (lines_of root)).
  rewrite (Split_field _ _ _ Hf), IH. reflexivity.
Qed.

(** X4: take a definitions file that opens and takes writes and that holds,
    for each child of the jobs directory in the order of the children, its
    record [name:schedule:command] and a newline, no record holding a
    newline itself.  After any sequence of clone writes whose payloads
    hold no newline the file is again the records of the children, each
    followed by a newline; split at the newlines it gives exactly one line
    per child, in the order of the children, and an empty rest. *)
Theorem clone_writes_persisted (d : daemon) (datas : list bytes) :
  healthy (jobsdb d) ->
  content (jobsdb d) = lines_of (jobsroot d) ->
  Forall (fun f => newline_free (record_of f)) (jobsroot d) ->
  Forall (fun data => ~ In newline data) datas ->
  content (jobsdb (clone_writes d datas))
  = lines_of (jobsroot (clone_writes d datas))
  /\ strings_Split (content (jobsdb (clone_writes d datas))) newline
     = map record_of (jobsroot (clone_writes d datas)) ++ [EmptyString].
Proof.
  intros Hh Hc Hroot Hdatas.
  destruct (clone_writes_in_step d datas Hh Hc) as [_ Hstep].
  split; [exact Hstep|].
  rewrite Hstep. apply Split_lines_of.
  now apply clone_writes_newline_free.
Qed.

(** X5: the definitions file is only ever appended to: whatever the
    payloads and whether or not the file opens or takes writes, its content
    after a sequence of clone writes starts with its content before. *)
Theorem clone_writes_append_only (d : daemon) (datas : list bytes) :
  exists suffix,
    content (jobsdb (clone_writes d datas))
    = (content (jobsdb d) ++ suffix)%string.
Proof.
  revert d. induction datas as [|data datas IH]; intros d.
  - exists EmptyString. simpl. now rewrite string_app_nil_r.
  - unfold clone_writes. simpl fold_left.
    fold (clone_writes (fst (clonefile_Write d data 0)) datas).
    destruct (IH (fst (clonefile_Write d data 0))) as [suffix Hs].
    destruct (clone_write_cases d data 0)
      as (_ & _ & [[_ Hcont]|(f & _ & _ & _ & _ & Hcont)]).
    + exists suffix. now rewrite Hs, Hcont.
    + rewrite Hs, Hcont.
      destruct (open_error (jobsdb d)); [now exists suffix|].
      destruct (write_error (jobsdb d)); [now exists suffix|].
      exists (line_of f ++ suffix)%string. now rewrite string_app_assoc.
Qed.

(** X6: the count a clone write returns is zero when the payload is turned
    down as a definition and the length of the payload otherwise, also when
    the write then fails: the only errors left are the duplicate name of
    [addJob] and the error of opening the definitions file. *)
Theorem clone_write_count (d : daemon) (data : bytes) (offset : Z) :
  (turned_down data -> fst (snd (clonefile_Write d data offset)) = 0)
  /\ (~ turned_down data ->
      fst (snd (clonefile_Write d data offset)) = len data
      /\ (snd (snd (clonefile_Write d data offset)) = None
          \/ snd (snd (clonefile_Write d data offset)) = Some Eexist
          \/ exists msg,
               snd (snd (clonefile_Write d data offset)) = Some (ErrOS msg))).
Proof.
  unfold turned_down, clonefile_Write.
  destruct (strings_Split (string_of_list_ascii data) ":")
    as [|p0 [|p1 [|p2 [|p3 rest]]]];
    try (split; [reflexivity | intros H; destruct (H I)]).
  destruct (mkJobDefinition p0 p1 p2) as [def|e] eqn:Hdef.
  - apply mkJobDefinition_Ok in Hdef. destruct Hdef as (Hnm & [ex Hex] & ->).
    split.
    + intros [H|[msg H]]; [rewrite Hnm in H | rewrite Hex in H]; discriminate H.
    + intros _.
      destruct (addJob (jobsroot d) _) as [root'|e] eqn:Hadd.
      * unfold os_OpenFile. destruct (open_error (jobsdb d)); simpl; eauto.
      * apply addJob_Err in Hadd. subst e. simpl. auto.
  - apply mkJobDefinition_Err in Hdef. destruct Hdef as [_ Hbad].
    split; [reflexivity | intros H; destruct (H Hbad)].
Qed.

(** ** Reads that fit the buffer, and reading on *)

(** X7: when the buffer is at least as long as what is left of the content
    at the offset, [Read] puts exactly that rest at the start of the buffer,
    leaves the bytes of the buffer behind it as they were, and returns the
    length of the rest. *)
Theorem jobfile_Read_delivers (jf : jobfile) (j : job) (now : Z)
    (buf cont : bytes) (offset : Z) :
  reader jf j now = Some cont ->
  0 <= offset <= len cont ->
  len cont - offset <= len buf ->
  exists buf',
    jobfile_Read jf j now buf offset = Some (buf', (len cont - offset, None))
    /\ firstn (Z.to_nat (len cont - offset)) buf' = skipn (Z.to_nat offset) cont
    /\ skipn (Z.to_nat (len cont - offset)) buf'
       = skipn (Z.to_nat (len cont - offset)) buf
    /\ List.length buf' = List.length buf.
Proof.
  intros Hr Ho Hfit.
  rewrite (jobfile_Read_within _ _ _ _ _ _ Hr Ho).
  eexists. split; [reflexivity|].
  pose proof (len_skipn cont offset Ho) as Hrest.
  set (rest := skipn (Z.to_nat offset) cont) in *.
  assert (Hn : Z.to_nat (len cont - offset) = List.length rest).
  { rewrite <- Hrest. unfold len. now rewrite Nat2Z.id. }
  assert (Hle : (List.length rest <= List.length buf)%nat).
  { unfold len in *. lia. }
  rewrite Hn. unfold copy. rewrite (firstn_all2 rest) by exact Hle.
  split; [|split].
  - rewrite firstn_app, firstn_all, Nat.sub_diag. simpl. now rewrite app_nil_r.
  - rewrite skipn_app, skipn_all, Nat.sub_diag. reflexivity.
  - rewrite length_app, length_skipn. lia.
Qed.

(** X8: a client that moves its offset on by the count [Read] returned
    gets an empty read next, whatever the lengths of its buffers: the count
    always leads to the end of the content. *)
Theorem jobfile_Read_then_end (jf : jobfile) (j : job) (now : Z)
    (buf buf2 cont : bytes) (offset : Z) :
  reader jf j now = Some cont ->
  0 <= offset <= len cont ->
  exists buf' n,
    jobfile_Read jf j now buf offset = Some (buf', (n, None))
    /\ 0 <= n
    /\ jobfile_Read jf j now buf2 (offset + n) = Some (buf2, (0, None)).
Proof.
  intros Hr Ho.
  rewrite (jobfile_Read_within _ _ _ _ _ _ Hr Ho).
  eexists _, _. split; [reflexivity|]. split; [lia|].
  apply (jobfile_Read_beyond _ _ _ _ _ _ Hr). lia.
Qed.

(** ** What no write and no goroutine step changes *)

Lemma set_task_frame j i p :
  defn (set_task j i p) = defn j
  /\ children (set_task j i p) = children j
  /\ history (set_task j i p) = history j.
Proof. repeat split. Qed.

Lemma run_step_children j i ev j1 :
  run_step j i ev = Some j1 -> children j1 = children j.
Proof.
  unfold run_step. intros H.
  destruct (nth_error (tasks j) i) as [[]|]; destruct ev as [now|now [out|]|now];
    inversion H; reflexivity.
Qed.

Lemma recv_done_frame j i j1 :
  recv_done j i = Some j1 -> children j1 = children j /\ history j1 = history j.
Proof.
  unfold recv_done. intros H.
  destruct (nth_error (tasks j) i) as [[]|]; inversion H; split; reflexivity.
Qed.

(** A writer touches neither the three fields of the definition, nor the
    children, nor the history; it leaves the state or stores one of the
    two state words. *)
Lemma writer_frame n j data :
  forall j',
    (exists k e, jobfile_Write (jobfile_of n) j data 0 = Returned j' k e)
    \/ jobfile_Write (jobfile_of n) j data 0 = Parked j' ->
    name (defn j') = name (defn j)
    /\ schedule (defn j') = schedule (defn j)
    /\ cmd (defn j') = cmd (defn j)
    /\ children j' = children j
    /\ history j' = history j
    /\ (state (defn j') = state (defn j)
        \/ state (defn j') = STOPPED \/ state (defn j') = STARTED).
Proof.
  intros j' H. unfold jobfile_Write in H.
  destruct n; simpl in H;
    try (destruct H as [(k & e & H)|H]; inversion H; subst j';
         repeat split; auto).
  unfold ctl_writer in H.
  destruct (String.eqb _ STOP);
    [|destruct (String.eqb _ START)];
    try destruct (negb _);
    destruct H as [(k & e & H)|H]; inversion H; subst j';
    repeat split; auto.
Qed.

Lemma step_frame s e s' :
  step s e = Some s' ->
  name (defn (sjob s')) = name (defn (sjob s))
  /\ schedule (defn (sjob s')) = schedule (defn (sjob s))
  /\ cmd (defn (sjob s')) = cmd (defn (sjob s))
  /\ children (sjob s') = children (sjob s)
  /\ (state (defn (sjob s')) = state (defn (sjob s))
      \/ state (defn (sjob s')) = STOPPED \/ state (defn (sjob s')) = STARTED).
Proof.
  destruct s as [j w]. destruct e as [n data|i|i ev]; simpl; intros H.
  - destruct w; [discriminate|].
    destruct (jobfile_Write (jobfile_of n) j data 0) as [j1 k e|j1] eqn:Hw;
      inversion H; subst s'; simpl;
      destruct (writer_frame n j data j1) as (H1 & H2 & H3 & H4 & _ & H6);
      eauto 6.
  - destruct w; [|discriminate].
    destruct (recv_done j i) as [j1|] eqn:Hr; inversion H; subst s'; simpl.
    rewrite (recv_done_defn _ _ _ Hr).
    destruct (recv_done_frame _ _ _ Hr) as [Hc _]. auto 6.
  - destruct (run_step j i ev) as [j1|] eqn:Hr; inversion H; subst s'; simpl.
    rewrite (run_step_defn _ _ _ _ Hr), (run_step_children _ _ _ _ Hr). auto 6.
Qed.

Lemma run_events_frame es : forall s s',
  run_events s es = Some s' ->
  name (defn (sjob s')) = name (defn (sjob s))
  /\ schedule (defn (sjob s')) = schedule (defn (sjob s))
  /\ cmd (defn (sjob s')) = cmd (defn (sjob s))
  /\ children (sjob s') = children (sjob s)
  /\ (state (defn (sjob s')) = state (defn (sjob s))
      \/ state (defn (sjob s')) = STOPPED \/ state (defn (sjob s')) = STARTED).
Proof.
  induction es as [|e es IH]; intros s s' H; simpl in H.
  - inversion H; subst s'. auto 6.
  - destruct (step s e) as [s1|] eqn:Hs; [|discriminate].
    destruct (step_frame _ _ _ Hs) as (H1 & H2 & H3 & H4 & H5).
    destruct (IH _ _ H) as (I1 & I2 & I3 & I4 & I5).
    rewrite I1, I2, I3, I4, H1, H2, H3, H4.
    repeat split.
    destruct I5 as [I5|I5]; [rewrite I5; exact H5 | auto].
Qed.

(** X9: whatever is written to the files of a job and whatever its
    goroutines do, the name, the schedule, the command and the four files
    of the job stay those of its creation; so the cmd file always reads the
    command the job was made with, byte for byte. *)
Theorem cmd_read_is_creation_command (def : jobdef) (j : job)
    (es : list event) (s : sys) (now : Z) :
  mkJob def = Ok j ->
  run_events (mkSys j None) es = Some s ->
  reader cmd_file (sjob s) now = Some (list_ascii_of_string (cmd def))
  /\ name (defn (sjob s)) = name def
  /\ schedule (defn (sjob s)) = schedule def
  /\ map Name (children (sjob s)) = ["ctl"; "schedule"; "cmd"; "log"]
  /\ map Mode (children (sjob s)) = [438; 292; 292; 292].
Proof.
  intros Hmk Hrun. rewrite mkJob_ok in Hmk. inversion Hmk; subst j; clear Hmk.
  destruct (run_events_frame _ _ _ Hrun) as (H1 & H2 & H3 & H4 & _).
  simpl in *. rewrite H1, H2, H3, H4. repeat split.
Qed.

(** X10: on a job made from a definition that [mkJobDefinition] returned,
    after any writes and goroutine steps, the ctl file reads [stopped] or
    [started]; the schedule file never hits the nil handle of a failed
    parse: it reads the schedule text when the job is stopped and the
    schedule, a ':' and the next instant when it is started. *)
Theorem ctl_and_schedule_reads (nm sc cm : string) (def : jobdef) (j : job)
    (es : list event) (s : sys) (now : Z) :
  mkJobDefinition nm sc cm = Ok def ->
  mkJob def = Ok j ->
  run_events (mkSys j None) es = Some s ->
  exists ex,
    cronexpr_Parse sc = inl ex
    /\ ((reader ctl_file (sjob s) now = Some (list_ascii_of_string STOPPED)
         /\ reader sched_file (sjob s) now = Some (list_ascii_of_string sc))
        \/ (reader ctl_file (sjob s) now = Some (list_ascii_of_string STARTED)
            /\ reader sched_file (sjob s) now
               = Some (list_ascii_of_string
                         (sc ++ ":" ++ time_String (cronexpr_Next ex now))%string))).
Proof.
  intros Hdef Hmk Hrun.
  apply mkJobDefinition_Ok in Hdef. destruct Hdef as (_ & [ex Hex] & ->).
  rewrite mkJob_ok in Hmk. inversion Hmk; subst j; clear Hmk.
  destruct (run_events_frame _ _ _ Hrun) as (_ & H2 & _ & _ & H5).
  simpl in H2, H5. exists ex. split; [exact Hex|].
  simpl. rewrite H2, Hex.
  destruct H5 as [H5|[H5|H5]]; rewrite H5; simpl; auto.
Qed.

(** ** The log along an interleaving *)

Lemma skipn_pushed (h : Ring) (l1 l2 : list string) :
  skipn (List.length l2)
    (skipn (List.length l1) (h ++ map Some l1) ++ map Some l2)
  = skipn (List.length (l1 ++ l2)) (h ++ map Some (l1 ++ l2)).
Proof.
  rewrite map_app, app_assoc, length_app, (Nat.add_comm (List.length l1)).
  rewrite <- skipn_skipn. f_equal.
  rewrite (skipn_app (List.length l1) (h ++ map Some l1)).
  replace (List.length l1 - List.length (h ++ map Some l1))%nat with 0%nat;
    [reflexivity|].
  rewrite length_app, length_map. lia.
Qed.

Lemma step_history s e s' :
  step s e = Some s' ->
  history (sjob s')
  = skipn (List.length (event_entries e))
      (history (sjob s) ++ map Some (event_entries e)).
Proof.
  destruct s as [j w]. destruct e as [n data|i|i ev]; simpl; intros H.
  - destruct w; [discriminate|]. rewrite app_nil_r.
    destruct (jobfile_Write (jobfile_of n) j data 0) as [j1 k e|j1] eqn:Hw;
      inversion H; subst s'; simpl;
      destruct (writer_frame n j data j1) as (_ & _ & _ & _ & H5 & _); eauto.
  - destruct w; [|discriminate]. rewrite app_nil_r.
    destruct (recv_done j i) as [j1|] eqn:Hr; inversion H; subst s'; simpl.
    now destruct (recv_done_frame _ _ _ Hr).
  - destruct (run_step j i ev) as [j1|] eqn:Hr; inversion H; subst s'; simpl.
    unfold run_step in Hr.
    destruct (nth_error (tasks j) i) as [[]|]; destruct ev as [now|now [out|]|now];
      inversion Hr; subst j1; cbn [event_entries List.length map];
      try apply push_history.
    simpl. now rewrite app_nil_r.
Qed.

Lemma run_events_history es : forall s s',
  run_events s es = Some s' ->
  history (sjob s')
  = skipn (List.length (flat_map event_entries es))
      (history (sjob s) ++ map Some (flat_map event_entries es)).
Proof.
  induction es as [|e es IH]; intros s s' H; simpl in H.
  - inversion H; subst s'. simpl. now rewrite app_nil_r.
  - destruct (step s e) as [s1|] eqn:Hs; [|discriminate].
    rewrite (IH _ _ H), (step_history _ _ _ Hs). simpl flat_map.
    apply skipn_pushed.
Qed.

(** X11: take any sequence of writes and goroutine steps on a new job
    during which at most one goroutine of the job is alive at a time, so
    that the pushes of [run] follow one another.  After it the history ring
    has its 32 slots, and the log file reads the last 32 (or fewer) of the
    entries the goroutine steps taken have pushed, in the order of the
    steps: a [started] line for a first step, the instant and the stdout
    for a successful run, a [completed] line for a last step; writes and
    failed runs add nothing. *)
Theorem log_along_interleaving (def : jobdef) (j : job) (es : list event)
    (s : sys) (now : Z) :
  mkJob def = Ok j ->
  run_events (mkSys j None) es = Some s ->
  alone_throughout (mkSys j None) es = true ->
  List.length (history (sjob s)) = 32%nat
  /\ reader log_file (sjob s) now
     = Some (flat_map list_ascii_of_string
               (lastn (Nat.min (List.length (flat_map event_entries es)) 32)
                  (flat_map event_entries es))).
Proof.
  intros Hmk Hrun _. rewrite mkJob_ok in Hmk. inversion Hmk; subst j; clear Hmk.
  pose proof (run_events_history _ _ _ Hrun) as Hh. cbn [sjob history] in Hh.
  split.
  - rewrite Hh, length_skipn, length_app, length_map.
    unfold ring_New. rewrite repeat_length. lia.
  - simpl. rewrite log_reader_entries, Hh, entries_after_pushes. reflexivity.
Qed.

(** ** Stopping a started job *)

Lemma listening_somewhere ts :
  (0 < count_listening ts)%nat ->
  exists i p, nth_error ts i = Some p /\ listening p = true.
Proof.
  unfold count_listening. induction ts as [|t ts IH]; simpl; [lia|].
  destruct (listening t) eqn:Ht.
  - intros _. exists 0%nat, t. now split.
  - intros H. destruct (IH H) as (i & p & Hi & Hp). exists (S i), p. now split.
Qed.

Lemma listening_counts ts i p :
  nth_error ts i = Some p -> listening p = true -> (0 < count_listening ts)%nat.
Proof.
  intros Hi Hp.
  pose proof (count_listening_set_nth ts i p Exited Hi) as H.
  unfold weight in H. rewrite Hp in H. simpl in H. lia.
Qed.

Lemma nth_error_set_nth {A : Type} (l : list A) : forall i x y,
  nth_error l i = Some x -> nth_error (set_nth l i y) i = Some y.
Proof.
  induction l as [|a l IH]; intros [|i] x y H; simpl in *;
    try discriminate; [reflexivity | eauto].
Qed.

Lemma task_steps_listening j j' :
  (exists e, cronexpr_Parse (schedule (defn j)) = inl e) ->
  task_steps j j' ->
  count_listening (tasks j') = count_listening (tasks j).
Proof.
  intros Hp H. induction H as [|a k ev b c Hstep _ IH]; [reflexivity|].
  rewrite IH.
  - eapply run_step_listening; eassumption.
  - now rewrite (run_step_defn _ _ _ _ Hstep).
Qed.

(** X12: on a job made from a valid definition, in a state reached by
    writes and by goroutine steps that are complete (every command run that
    was started has returned: a goroutine inside [k.Run] is no state of the
    events), with the state STARTED and no write in progress, a stop write
    can run to its end: the listening goroutine is at its entry or in its
    [select], reaches the [select] and takes the signal; the write returns
    the payload length, the state is STOPPED and no goroutine listens any
    more.  Nothing is said of a command that does not return. *)
Theorem stop_write_can_complete (nm sc cm : string) (def : jobdef) (j : job)
    (es : list event) (s : sys) (data : bytes) :
  mkJobDefinition nm sc cm = Ok def ->
  mkJob def = Ok j ->
  run_events (mkSys j None) es = Some s ->
  sending s = None ->
  state (defn (sjob s)) = STARTED ->
  equal_fold data STOP ->
  exists j1,
    ctl_write (sjob s) data j1 (len data) None
    /\ state (defn j1) = STOPPED
    /\ count_listening (tasks j1) = 0%nat.
Proof using Map_unicode_ToLower_commands.
  intros Hdef Hmk Hrun Hw Hst Hstop.
  apply mkJobDefinition_Ok in Hdef. destruct Hdef as (_ & [ex Hex] & ->).
  rewrite mkJob_ok in Hmk. inversion Hmk; subst j; clear Hmk.
  assert (Hco : coherent s).
  { eapply coherent_run_events; [| |exact Hrun]; [now exists ex|].
    right; right. repeat split. }
  destruct (run_events_frame _ _ _ Hrun) as (_ & Hsch & _). simpl in Hsch.
  unfold coherent in Hco.
  destruct Hco as [(_ & _ & Hn)|[(Hs & _)|(Hs & _)]];
    try (rewrite Hst in Hs; discriminate Hs).
  set (jp := set_state (sjob s) STOPPED).
  assert (Hpark : ctl_writer (sjob s) data = Parked jp).
  { rewrite (ctl_writer_stop _ _ Hstop), Hst. reflexivity. }
  assert (Hparse : exists e, cronexpr_Parse (schedule (defn jp)) = inl e).
  { exists ex. simpl. now rewrite Hsch. }
  destruct (listening_somewhere (tasks jp)) as (i & p & Hi & Hp).
  { simpl. rewrite Hn. lia. }
  assert (Hready : exists jp', task_steps jp jp'
                     /\ nth_error (tasks jp') i = Some AtSelect).
  { destruct p; try discriminate Hp.
    - eexists. split.
      + eapply ts_step with (i := i) (ev := Begin 0); [|apply ts_refl].
        unfold run_step. rewrite Hi. reflexivity.
      + unfold loop_head. simpl. rewrite Hsch, Hex. simpl.
        eapply nth_error_set_nth. exact Hi.
    - exists jp. split; [apply ts_refl | exact Hi]. }
  destruct Hready as (jp' & Hsteps & Hsel).
  assert (Hrecv : recv_done jp' i = Some (set_task jp' i GotDone)).
  { unfold recv_done. now rewrite Hsel. }
  exists (set_task jp' i GotDone). split; [|split].
  - eapply cw_handoff; eauto.
  - simpl. now rewrite (task_steps_defn _ _ Hsteps).
  - pose proof (recv_done_listening _ _ _ Hrecv) as Hc.
    pose proof (task_steps_listening _ _ Hparse Hsteps) as Hkeep.
    simpl in Hkeep. lia.
Qed.

(** ** A job whose schedule does not parse *)

Lemma step_parked_without_listener s e s' :
  step s e = Some s' ->
  sending s <> None -> count_listening (tasks (sjob s)) = 0%nat ->
  sending s' <> None /\ count_listening (tasks (sjob s')) = 0%nat.
Proof.
  destruct s as [j w]. destruct e as [n data|i|i ev]; simpl; intros H Hw Hn.
  - destruct w; [discriminate | contradiction].
  - destruct w; [|discriminate]. unfold recv_done in H.
    destruct (nth_error (tasks j) i) as [p|] eqn:Hi; [|discriminate].
    destruct p; try discriminate H.
    pose proof (listening_counts _ _ _ Hi eq_refl). lia.
  - unfold run_step in H.
    destruct (nth_error (tasks j) i) as [p|] eqn:Hi; [|discriminate].
    destruct p, ev as [now|now [out|]|now]; try discriminate H;
      try (pose proof (listening_counts _ _ _ Hi eq_refl); lia).
    inversion H; subst s'; simpl. split; [exact Hw|].
    pose proof (count_listening_set_nth _ i _ Exited Hi) as Hc.
    unfold weight in Hc. simpl in Hc. lia.
Qed.

Lemma parked_without_listener es : forall s s',
  run_events s es = Some s' ->
  sending s <> None -> count_listening (tasks (sjob s)) = 0%nat ->
  sending s' <> None.
Proof.
  induction es as [|e es IH]; intros s s' H Hw Hn; simpl in H.
  - inversion H; subst s'. exact Hw.
  - destruct (step s e) as [s1|] eqn:Hs; [|discriminate].
    destruct (step_parked_without_listener _ _ _ Hs Hw Hn) as [Hw1 Hn1].
    eapply IH; eassumption.
Qed.

(** X13: [mkJob] takes any definition.  On a job whose schedule does not
    parse, the goroutine of a start write pushes its [started] entry and
    returns at the head of the loop while the state stays STARTED; a stop
    write then stores STOPPED and waits in its send, and no sequence of
    later events lets it return: the lock of the job's directory is never
    released. *)
Theorem stop_blocks_after_parse_failure (def : jobdef) (j : job) (msg : string)
    (d_start d_stop : bytes) (now : Z) :
  cronexpr_Parse (schedule def) = inr msg ->
  state def = STOPPED ->
  mkJob def = Ok j ->
  equal_fold d_start START ->
  equal_fold d_stop STOP ->
  exists s1 s2,
    run_events (mkSys j None) [WriteFile Nctl d_start; Task 0 (Begin now)]
    = Some s1
    /\ state (defn (sjob s1)) = STARTED
    /\ tasks (sjob s1) = [Exited]
    /\ sending s1 = None
    /\ step s1 (WriteFile Nctl d_stop) = Some s2
    /\ state (defn (sjob s2)) = STOPPED
    /\ sending s2 = Some d_stop
    /\ forall es s', run_events s2 es = Some s' -> sending s' <> None.
Proof using Map_unicode_ToLower_commands.
  intros Hparse Hst Hmk Hstart Hstop.
  rewrite mkJob_ok in Hmk. inversion Hmk; subst j; clear Hmk.
  destruct def as [nm sc cm st]. simpl in Hparse, Hst. subst st.
  eexists _, _. split.
  { simpl. unfold jobfile_Write. simpl.
    rewrite (ctl_writer_start _ _ Hstart). simpl.
    unfold loop_head. simpl. rewrite Hparse. reflexivity. }
  split; [reflexivity|]. split; [reflexivity|]. split; [reflexivity|].
  split.
  { simpl. unfold jobfile_Write. simpl.
    rewrite (ctl_writer_stop _ _ Hstop). reflexivity. }
  split; [reflexivity|]. split; [reflexivity|].
  intros es s' Hrun. eapply parked_without_listener; [exact Hrun| |].
  - discriminate.
  - reflexivity.
Qed.

(** ** Start, fire, stop *)

Lemma run_events_app es1 : forall es2 s,
  run_events s (es1 ++ es2)
  = match run_events s es1 with
    | Some s1 => run_events s1 es2
    | None => None
    end.
Proof.
  induction es1 as [|e es1 IH]; intros es2 s; simpl; [reflexivity|].
  destruct (step s e); [apply IH | reflexivity].
Qed.

(** A goroutine alone at its [select], with a schedule that parses, takes
    any number of timer fires and is back at the [select]. *)
Lemma fires_run runs : forall j w,
  tasks j = [AtSelect] ->
  (exists e, cronexpr_Parse (schedule (defn j)) = inl e) ->
  exists j',
    run_events (mkSys j w) (fires 0 runs) = Some (mkSys j' w)
    /\ tasks j' = [AtSelect] /\ defn j' = defn j.
Proof.
  induction runs as [|[t out] runs IH]; intros j w Ht [e He].
  - exists j. now repeat split.
  - simpl. unfold run_step. rewrite Ht. simpl.
    unfold loop_head. simpl. rewrite He.
    destruct (IH (set_task (push j (time_String t ++ ":" ++ out)%string) 0 AtSelect) w)
      as (j' & Hrun & Ht' & Hd').
    + unfold set_task. simpl. now rewrite Ht.
    + exists e. exact He.
    + exists j'. now repeat split.
Qed.

Lemma fires_entries i runs :
  flat_map event_entries (fires i runs)
  = map (fun r => (time_String (fst r) ++ ":" ++ snd r)%string) runs.
Proof.
  induction runs as [|r runs IH]; simpl; [reflexivity|]. now rewrite IH.
Qed.

(** X14: start, fire, stop.  On a new job made from a valid definition: a
    start write, the first step of its goroutine, any number of successful
    runs, a stop write, the hand-over of the signal and the last step of
    the goroutine can be taken in this order; then the state is STOPPED,
    the goroutine has returned, no write waits, and the log file reads the
    last 32 (or fewer) of: the [started] line, one entry per run in the order
    of the runs, the [completed] line. *)
Theorem start_fire_stop_log (nm sc cm : string) (def : jobdef) (j : job)
    (d_start d_stop : bytes) (t0 t1 now : Z) (runs : list (Z * string)) :
  mkJobDefinition nm sc cm = Ok def ->
  mkJob def = Ok j ->
  equal_fold d_start START ->
  equal_fold d_stop STOP ->
  let pushed :=
    (time_String t0 ++ ":started" ++ nl)%string
    :: map (fun r => (time_String (fst r) ++ ":" ++ snd r)%string) runs
    ++ [(time_String t1 ++ ":completed" ++ nl)%string] in
  exists s,
    run_events (mkSys j None)
      ([WriteFile Nctl d_start; Task 0 (Begin t0)] ++ fires 0 runs
       ++ [WriteFile Nctl d_stop; Recv 0; Task 0 (Finish t1)])
    = Some s
    /\ state (defn (sjob s)) = STOPPED
    /\ tasks (sjob s) = [Exited]
    /\ sending s = None
    /\ reader log_file (sjob s) now
       = Some (flat_map list_ascii_of_string
                 (lastn (Nat.min (List.length pushed) 32) pushed)).
Proof using Map_unicode_ToLower_commands.
  intros Hdef Hmk Hstart Hstop pushed.
  apply mkJobDefinition_Ok in Hdef. destruct Hdef as (_ & [ex Hex] & ->).
  rewrite mkJob_ok in Hmk. inversion Hmk; subst j; clear Hmk.
  set (j0 := mkJobRec (mkJobdef nm sc cm STOPPED) (ring_New 32) []
               [mkFile "ctl" 438 Nctl; mkFile "schedule" 292 Nsched;
                mkFile "cmd" 292 Ncmd; mkFile "log" 292 Nlog]).
  set (es := [WriteFile Nctl d_start; Task 0 (Begin t0)] ++ fires 0 runs
             ++ [WriteFile Nctl d_stop; Recv 0; Task 0 (Finish t1)]).
  assert (Hrun : exists s, run_events (mkSys j0 None) es = Some s
                   /\ state (defn (sjob s)) = STOPPED
                   /\ tasks (sjob s) = [Exited] /\ sending s = None).
  { unfold es. rewrite run_events_app.
    assert (H1 : exists j1,
               run_events (mkSys j0 None) [WriteFile Nctl d_start; Task 0 (Begin t0)]
               = Some (mkSys j1 None)
               /\ tasks j1 = [AtSelect]
               /\ defn j1 = mkJobdef nm sc cm STARTED).
    { eexists. split.
      - simpl. unfold jobfile_Write. simpl.
        rewrite (ctl_writer_start _ _ Hstart). simpl.
        unfold loop_head. simpl. rewrite Hex. reflexivity.
      - split; reflexivity. }
    destruct H1 as (j1 & -> & Ht1 & Hd1).
    rewrite run_events_app.
    destruct (fires_run runs j1 None Ht1) as (j2 & -> & Ht2 & Hd2).
    { exists ex. now rewrite Hd1. }
    eexists. split; [|split; [|split]].
    - simpl. unfold jobfile_Write. simpl.
      rewrite (ctl_writer_stop _ _ Hstop), Hd2, Hd1. simpl.
      unfold recv_done. simpl. rewrite Ht2. simpl.
      unfold run_step. simpl. rewrite Ht2. simpl. reflexivity.
    - reflexivity.
    - simpl. now rewrite Ht2.
    - reflexivity. }
  destruct Hrun as (s & Hrun & Hs & Ht & Hw).
  exists s. split; [exact Hrun|]. split; [exact Hs|]. split; [exact Ht|].
  split; [exact Hw|].
  pose proof (run_events_history _ _ _ Hrun) as Hh. cbn [sjob history j0] in Hh.
  assert (Hp : flat_map event_entries es = pushed).
  { unfold es, pushed. rewrite !flat_map_app, fires_entries. reflexivity. }
  rewrite Hp in Hh. simpl reader.
  rewrite log_reader_entries, Hh, entries_after_pushes. reflexivity.
Qed.

(** ** When a write waits, and a write that is repeated *)

(** The writer closures: only the ctl writer can be left in its send, and
    only for a payload equal to [stop] up to case on a state that is not
    STOPPED. *)
Lemma writer_parks_iff (n : jobnode) (j jp : job) (data : bytes) (offset : Z) :
  jobfile_Write (jobfile_of n) j data offset = Parked jp
  <-> n = Nctl /\ equal_fold data STOP /\ state (defn j) <> STOPPED
      /\ jp = set_state j STOPPED.
Proof using Map_unicode_ToLower_commands.
  unfold jobfile_Write. split.
  - intros H. destruct n; simpl in H; try discriminate H.
    destruct (string_dec (lower_ascii (string_of_list_ascii data)) STOP) as [E|N1].
    + rewrite (ctl_writer_stop _ _ E) in H.
      destruct (String.eqb_spec (state (defn j)) STOPPED) as [Es|Ns];
        simpl in H; inversion H. now repeat split.
    + destruct (string_dec (lower_ascii (string_of_list_ascii data)) START) as [E|N2].
      * rewrite (ctl_writer_start _ _ E) in H. destruct (negb _); discriminate H.
      * rewrite (ctl_writer_other _ _ N1 N2) in H. discriminate H.
  - intros (-> & E & Ns & ->). simpl. rewrite (ctl_writer_stop _ _ E).
    destruct (String.eqb_spec (state (defn j)) STOPPED) as [Es|_];
      [contradiction | reflexivity].
Qed.

(** X15: a write to one of the four files of a job is held up in two ways
    only.  It is not admitted, whatever the file and the payload, exactly
    while an earlier stop write waits in its send, which holds the lock of
    the job's directory.  Once admitted it is left waiting itself exactly
    when it is a ctl write whose payload equals [stop] up to case and the
    state is not STOPPED; every other admitted write returns. *)
Theorem write_waits_only_to_stop (n : jobnode) (s : sys) (data : bytes) :
  (step s (WriteFile n data) = None <-> sending s <> None)
  /\ (forall s', step s (WriteFile n data) = Some s' ->
      (sending s' <> None
       <-> n = Nctl /\ equal_fold data STOP
           /\ state (defn (sjob s)) <> STOPPED)).
Proof using Map_unicode_ToLower_commands.
  destruct s as [j w]. simpl. split.
  - destruct w as [d|].
    + split; [discriminate | reflexivity].
    + destruct (jobfile_Write (jobfile_of n) j data 0);
        (split; [discriminate | intros H; now destruct H]).
  - intros s' H. destruct w as [d|]; [discriminate|].
    destruct (jobfile_Write (jobfile_of n) j data 0) as [j1 k e|jp] eqn:Hw;
      inversion H; subst s'; simpl.
    + split; [intros Hne; now destruct Hne|].
      intros (Hn & Hf & Hs). exfalso.
      assert (Hp : jobfile_Write (jobfile_of n) j data 0
                   = Parked (set_state j STOPPED))
        by (apply writer_parks_iff; auto).
      rewrite Hw in Hp. discriminate Hp.
    + apply writer_parks_iff in Hw. destruct Hw as (Hn & Hf & Hs & _).
      split; [auto | discriminate].
Qed.

(** X16: when the definitions file does not open, a clone write of a valid
    definition with a new name adds the job all the same and returns the
    error of the open with the whole payload counted; the same write
    repeated fails with the duplicate-name error and changes nothing more,
    so the definition is in the directory and not in the file. *)
Theorem clone_write_repeated_after_open_failure (d : daemon) (data : bytes)
    (offset : Z) (p0 p1 p2 msg : string) (def : jobdef) :
  strings_Split (string_of_list_ascii data) ":" = [p0; p1; p2] ->
  mkJobDefinition p0 p1 p2 = Ok def ->
  ~ In p0 (map Name (jobsroot d)) ->
  open_error (jobsdb d) = Some msg ->
  exists j,
    let d1 := mkDaemon (jobsroot d ++ [mkFile p0 (Z.lor DMDIR 365) j]) (jobsdb d) in
    mkJob def = Ok j
    /\ clonefile_Write d data offset = (d1, (len data, Some (ErrOS msg)))
    /\ clonefile_Write d1 data offset = (d1, (len data, Some Eexist)).
Proof.
  intros Hsplit Hdef Hnew Hopen.
  pose proof Hdef as Hdef'. apply mkJobDefinition_Ok in Hdef'.
  destruct Hdef' as (_ & _ & Hd).
  assert (Hname : name def = p0) by now rewrite Hd.
  eexists. split; [apply mkJob_ok|]. split.
  - unfold clonefile_Write. rewrite Hsplit, Hdef.
    unfold addJob. rewrite mkJob_ok. simpl bind. unfold File_Add.
    destruct (existsb _ (jobsroot d)) eqn:E.
    { apply existsb_Name in E. rewrite Hname in E. contradiction. }
    unfold os_OpenFile. rewrite Hopen, Hname. reflexivity.
  - unfold clonefile_Write. rewrite Hsplit, Hdef.
    unfold addJob. rewrite mkJob_ok. simpl bind. unfold File_Add.
    destruct (existsb _ _) eqn:E; [reflexivity|].
    exfalso. apply not_true_iff_false in E. apply E, existsb_Name.
    simpl. rewrite map_app, in_app_iff, Hname. right. now left.
Qed.

End Jobd.

(** * Closed instances *)

Lemma sample_lower_commands :
  forall s, isASCII s = false -> sample_lower s <> STOP /\ sample_lower s <> START.
Proof.
  unfold sample_lower. intros s Hs. split; intros ->; discriminate Hs.
Qed.

Example mkJob_hello : mkJob hello_def = Ok hello_job.
Proof. reflexivity. Qed.

Example mkJobDefinition_hello :
  mkJobDefinition unit sample_Parse "hello" "* * * * *" "echo hi" = Ok hello_def.
Proof. reflexivity. Qed.

(** Start, first step of the goroutine, stop, hand-over, start again: the
    goroutine of the first start is still there when the second begins. *)
Example two_goroutines_at_once :
  option_map (fun s => tasks (sjob s))
    (run_events unit sample_Parse sample_Next sample_time_String sample_lower
       (mkSys hello_job None)
       [WriteFile Nctl (list_ascii_of_string "start"); Task 0 (Begin 0);
        WriteFile Nctl (list_ascii_of_string "stop"); Recv 0;
        WriteFile Nctl (list_ascii_of_string "start")])
  = Some [GotDone; AtEntry].
Proof. reflexivity. Qed.

(** A whole stop write that has to wait for the goroutine to reach its
    [select]. *)
Example stop_write_hands_over :
  let started := set_tasks (set_state hello_job STARTED) [AtEntry] in
  exists j1,
    ctl_write unit sample_Parse sample_time_String sample_lower
      started (list_ascii_of_string "Stop") j1 4 None
    /\ state (defn j1) = STOPPED /\ tasks j1 = [GotDone].
Proof.
  eexists. split.
  - eapply cw_handoff with (i := 0%nat).
    + reflexivity.
    + eapply ts_step with (i := 0%nat) (ev := Begin 0); [reflexivity|].
      apply ts_refl.
    + reflexivity.
  - split; reflexivity.
Qed.

(** C1, at a concrete write: the name field of [:* * * * *:echo hi] is
    empty, hence not a non-empty string of word characters; the search of
    [mkJobDefinition] for a character that is not a word character finds
    none in it, so the write does not fail and a job with the empty name is
    added to the jobs directory. *)
Lemma clone_accepts_empty_name :
  let d := mkDaemon [] (mkHostfile None None EmptyString) in
  let data := list_ascii_of_string ":* * * * *:echo hi" in
  let r := clonefile_Write unit sample_Parse d data 0 in
  strings_Split (string_of_list_ascii data) ":" = [EmptyString; "* * * * *"; "echo hi"]
  /\ spec_valid_name EmptyString = false
  /\ snd r = (18, None)
  /\ map Name (jobsroot (fst r)) = [EmptyString]
  /\ ~ (exists e, snd (snd r) = Some e /\ kind_of e = invalid_definition).
Proof.
  repeat split. intros (e & He & _). discriminate He.
Qed.

(** C2, the state on which the claim fails: after start, the first step of
    the goroutine, stop and the hand-over, the state is STOPPED and no write
    waits, while the goroutine has not returned yet. *)
Lemma stopped_job_with_present_task :
  exists s,
    run_events unit sample_Parse sample_Next sample_time_String sample_lower
      (mkSys hello_job None)
      [WriteFile Nctl (list_ascii_of_string "start"); Task 0 (Begin 0);
       WriteFile Nctl (list_ascii_of_string "stop"); Recv 0]
    = Some s
    /\ sending s = None
    /\ ~ (existsb present (tasks (sjob s)) = true
          <-> state (defn (sjob s)) = STARTED).
Proof.
  eexists. split; [reflexivity|]. split; [reflexivity|].
  simpl. intros [H _]. specialize (H eq_refl). discriminate H.
Qed.

Lemma listening_task_iff_started_witness :
  let es := [WriteFile Nctl (list_ascii_of_string "start")] in
  let s := mkSys (spawn (set_state hello_job STARTED)) None in
  mkJobDefinition unit sample_Parse "hello" "* * * * *" "echo hi" = Ok hello_def
  /\ mkJob hello_def = Ok hello_job
  /\ run_events unit sample_Parse sample_Next sample_time_String sample_lower
       (mkSys hello_job None) es = Some s
  /\ (count_listening (tasks (sjob s)) <= 1)%nat
  /\ (existsb listening (tasks (sjob s)) = true
      <-> state (defn (sjob s)) = STARTED \/ sending s <> None)
  /\ (sending s = None ->
      (existsb listening (tasks (sjob s)) = true
       <-> state (defn (sjob s)) = STARTED)).
Proof.
  intros es s.
  split; [reflexivity|]. split; [reflexivity|]. split; [reflexivity|].
  apply (listening_task_iff_started unit sample_Parse sample_Next
           sample_time_String sample_lower
           "hello" "* * * * *" "echo hi" hello_def hello_job es s);
    reflexivity.
Defined.

(** C6, at a concrete write: the definitions file opens for append and the
    write to it fails; [clonefile.Write] adds the job, returns the payload
    length and no error, and the file holds no line for the job. *)
Theorem clone_write_drops_write_error :
  let db := mkHostfile None (Some "no space left on device") EmptyString in
  clonefile_Write unit sample_Parse (mkDaemon [] db)
    (list_ascii_of_string "hello:* * * * *:echo hi") 0
  = (mkDaemon [mkFile "hello" (Z.lor DMDIR 365) hello_job] db, (23, None))
  /\ content db = EmptyString.
Proof. split; reflexivity. Qed.

Lemma ctl_unknown_command_unchanged_witness :
  let data := list_ascii_of_string "restart" in
  ~ equal_fold data START
  /\ ~ equal_fold data STOP
  /\ exists e,
       jobfile_Write (ctl_file sample_lower) hello_job data 0
       = Returned hello_job 0 (Some e)
       /\ kind_of e = unknown_command.
Proof.
  intros data.
  assert (H1 : ~ equal_fold data START) by (intros H; discriminate H).
  assert (H2 : ~ equal_fold data STOP) by (intros H; discriminate H).
  split; [exact H1|]. split; [exact H2|].
  exact (ctl_unknown_command_unchanged sample_lower sample_lower_commands
           hello_job data 0 H1 H2).
Defined.

Lemma readonly_write_denied_witness :
  Nlog <> Nctl
  /\ jobfile_Write
       (jobfile_of unit sample_Parse sample_Next sample_time_String sample_lower Nlog)
       hello_job (list_ascii_of_string "start") 0
     = Returned hello_job 0 (Some Eperm)
  /\ kind_of Eperm = permission_denied.
Proof.
  assert (H : Nlog <> Nctl) by discriminate.
  split; [exact H|].
  exact (readonly_write_denied unit sample_Parse sample_Next sample_time_String
           sample_lower Nlog hello_job (list_ascii_of_string "start") 0 H).
Defined.

Lemma ctl_start_stop_idempotent_witness :
  let data := list_ascii_of_string "START" in
  let started := spawn (set_state hello_job STARTED) in
  equal_fold data START
  /\ ctl_write unit sample_Parse sample_time_String sample_lower
       hello_job data started 5 None
  /\ ctl_writer sample_lower started data = Returned started (len data) None.
Proof.
  intros data started.
  assert (Hf : equal_fold data START) by reflexivity.
  assert (Hw : ctl_write unit sample_Parse sample_time_String sample_lower
                 hello_job data started 5 None)
    by (apply cw_return; reflexivity).
  split; [exact Hf|]. split; [exact Hw|].
  destruct (ctl_start_stop_idempotent unit sample_Parse sample_time_String
              sample_lower sample_lower_commands hello_job data)
    as (_ & _ & H).
  exact (proj2 (proj2 (H (or_introl Hf) started 5 None Hw))).
Defined.

Lemma ctl_no_trimming_witness :
  let data := list_ascii_of_string "start" ++ [ascii_of_nat 10] in
  outer_space data = true
  /\ exists e,
       ctl_writer sample_lower hello_job data = Returned hello_job 0 (Some e)
       /\ kind_of e = unknown_command.
Proof.
  intros data.
  assert (Hs : outer_space data = true) by reflexivity.
  split; [exact Hs|].
  exact (proj2 (ctl_no_trimming sample_lower sample_lower_commands
                  hello_job data) Hs).
Defined.

Lemma history_keeps_last_32_witness :
  let es := ["a"; "b"; "c"] in
  let j' := fold_left push es hello_job in
  mkJob hello_def = Ok hello_job
  /\ (List.length (entries (history j')) <= 32)%nat
  /\ entries (history j') = lastn (Nat.min (List.length es) 32) es
  /\ reader log_file j' 0
     = Some (flat_map list_ascii_of_string
               (lastn (Nat.min (List.length es) 32) es)).
Proof.
  intros es j'.
  split; [reflexivity|].
  exact (history_keeps_last_32 hello_def hello_job es 0 eq_refl).
Defined.

Lemma clone_duplicate_name_witness :
  let d := mkDaemon [mkFile "hello" (Z.lor DMDIR 365) hello_job]
             (mkHostfile None None EmptyString) in
  let data := list_ascii_of_string "hello:* * * * *:echo hi" in
  strings_Split (string_of_list_ascii data) ":" = ["hello"; "* * * * *"; "echo hi"]
  /\ mkJobDefinition unit sample_Parse "hello" "* * * * *" "echo hi" = Ok hello_def
  /\ In (name hello_def) (map Name (jobsroot d))
  /\ addJob (jobsroot d) hello_def = Err Eexist
  /\ kind_of Eexist = duplicate_name
  /\ clonefile_Write unit sample_Parse d data 0 = (d, (len data, Some Eexist)).
Proof.
  intros d data.
  assert (Hin : In (name hello_def) (map Name (jobsroot d)))
    by (left; reflexivity).
  split; [reflexivity|]. split; [reflexivity|]. split; [exact Hin|].
  exact (clone_duplicate_name unit sample_Parse d data 0
           "hello" "* * * * *" "echo hi" hello_def eq_refl eq_refl Hin).
Defined.

(** * Closed instances of the further properties *)

Lemma clone_write_colon_count_witness :
  let d := mkDaemon [] (mkHostfile None None EmptyString) in
  let data := list_ascii_of_string "hello:* * * * *:echo a:b" in
  count_occ ascii_dec data ":"%char <> 2%nat
  /\ clonefile_Write unit sample_Parse d data 0
     = (d, (0, Some (ErrInvalidJobDefinition (string_of_list_ascii data)))).
Proof.
  intros d data.
  assert (H : count_occ ascii_dec data ":"%char <> 2%nat)
    by (vm_compute; discriminate).
  split; [exact H|].
  exact (clone_write_colon_count unit sample_Parse d data 0 H).
Defined.

Lemma clone_create_then_read_witness :
  let d := mkDaemon [] (mkHostfile None None EmptyString) in
  let payload := ("hello" ++ ":" ++ "* * * * *" ++ ":" ++ "echo hi")%string in
  MatchString_nonword "hello" = false
  /\ sample_Parse "* * * * *" = inl tt
  /\ ~ In ":"%char (list_ascii_of_string "* * * * *")
  /\ ~ In ":"%char (list_ascii_of_string "echo hi")
  /\ ~ In "hello" (map Name (jobsroot d))
  /\ healthy (jobsdb d)
  /\ exists j,
       clonefile_Write unit sample_Parse d (list_ascii_of_string payload) 0
       = (mkDaemon (jobsroot d ++ [mkFile "hello" (Z.lor DMDIR 365) j])
            (mkHostfile None None (content (jobsdb d) ++ payload ++ nl)%string),
          (len (list_ascii_of_string payload), None))
       /\ reader cmd_file j 0 = Some (list_ascii_of_string "echo hi")
       /\ reader (sched_file unit sample_Parse sample_Next sample_time_String) j 0
          = Some (list_ascii_of_string "* * * * *")
       /\ reader (ctl_file sample_lower) j 0 = Some (list_ascii_of_string STOPPED)
       /\ reader log_file j 0 = Some [].
Proof.
  intros d payload.
  assert (H1 : MatchString_nonword "hello" = false) by reflexivity.
  assert (H2 : sample_Parse "* * * * *" = inl tt) by reflexivity.
  assert (H3 : ~ In ":"%char (list_ascii_of_string "* * * * *"))
    by (simpl; intuition discriminate).
  assert (H4 : ~ In ":"%char (list_ascii_of_string "echo hi"))
    by (simpl; intuition discriminate).
  assert (H5 : ~ In "hello" (map Name (jobsroot d))) by (intros []).
  assert (H6 : healthy (jobsdb d)) by (split; reflexivity).
  repeat (split; [assumption|]).
  exact (clone_create_then_read unit sample_Parse sample_Next sample_time_String
           sample_lower d "hello" "* * * * *" "echo hi" tt 0 0
           H1 H2 H3 H4 H5 H6).
Defined.

Lemma clone_writes_registry_witness :
  let d := mkDaemon [] (mkHostfile None None EmptyString) in
  let datas := [list_ascii_of_string "hello:* * * * *:echo hi";
                list_ascii_of_string "hello:* * * * *:echo again";
                list_ascii_of_string "bad name:* * * * *:true"] in
  NoDup (map Name (jobsroot d))
  /\ exists added,
       jobsroot (clone_writes unit sample_Parse d datas) = jobsroot d ++ added
       /\ (List.length added <= List.length datas)%nat
       /\ Forall (registered unit sample_Parse) added
       /\ NoDup (map Name (jobsroot (clone_writes unit sample_Parse d datas))).
Proof.
  intros d datas.
  assert (H : NoDup (map Name (jobsroot d))) by constructor.
  split; [exact H|].
  exact (clone_writes_registry unit sample_Parse d datas H).
Defined.

(** A command may hold a newline: the payload is accepted, one child is
    added, and the file gets two lines for it. *)
Example clone_command_with_newline :
  let d := mkDaemon [] (mkHostfile None None EmptyString) in
  let data := list_ascii_of_string "a:* * * * *:echo hi" ++ [newline]
              ++ list_ascii_of_string "echo again" in
  let d' := fst (clonefile_Write unit sample_Parse d data 0) in
  List.length (jobsroot d') = 1%nat
  /\ strings_Split (content (jobsdb d')) newline
     = ["a:* * * * *:echo hi"; "echo again"; EmptyString].
Proof. split; reflexivity. Qed.

Lemma clone_writes_persisted_witness :
  let d := mkDaemon [] (mkHostfile None None EmptyString) in
  let datas := [list_ascii_of_string "hello:* * * * *:echo hi";
                list_ascii_of_string "hello:* * * * *:echo again";
                list_ascii_of_string "world:* * * * *:true"] in
  healthy (jobsdb d)
  /\ content (jobsdb d) = lines_of (jobsroot d)
  /\ Forall (fun f => newline_free (record_of f)) (jobsroot d)
  /\ Forall (fun data => ~ In newline data) datas
  /\ content (jobsdb (clone_writes unit sample_Parse d datas))
     = lines_of (jobsroot (clone_writes unit sample_Parse d datas))
  /\ strings_Split (content (jobsdb (clone_writes unit sample_Parse d datas)))
       newline
     = map record_of (jobsroot (clone_writes unit sample_Parse d datas))
       ++ [EmptyString].
Proof.
  intros d datas.
  assert (H1 : healthy (jobsdb d)) by (split; reflexivity).
  assert (H2 : content (jobsdb d) = lines_of (jobsroot d)) by reflexivity.
  assert (H3 : Forall (fun f => newline_free (record_of f)) (jobsroot d))
    by constructor.
  assert (H4 : Forall (fun data => ~ In newline data) datas)
    by (repeat constructor; simpl; intuition discriminate).
  split; [exact H1|]. split; [exact H2|]. split; [exact H3|].
  split; [exact H4|].
  exact (clone_writes_persisted unit sample_Parse d datas H1 H2 H3 H4).
Defined.

Lemma jobfile_Read_delivers_witness :
  let cont := list_ascii_of_string "echo hi" in
  let buf := list_ascii_of_string "????????" in
  reader cmd_file hello_job 0 = Some cont
  /\ 0 <= 2 <= len cont
  /\ len cont - 2 <= len buf
  /\ exists buf',
       jobfile_Read cmd_file hello_job 0 buf 2
       = Some (buf', (len cont - 2, None))
       /\ firstn (Z.to_nat (len cont - 2)) buf' = skipn (Z.to_nat 2) cont
       /\ skipn (Z.to_nat (len cont - 2)) buf'
          = skipn (Z.to_nat (len cont - 2)) buf
       /\ List.length buf' = List.length buf.
Proof.
  intros cont buf.
  assert (H1 : reader cmd_file hello_job 0 = Some cont) by reflexivity.
  assert (H2 : 0 <= 2 <= len cont) by (vm_compute; split; discriminate).
  assert (H3 : len cont - 2 <= len buf) by (vm_compute; discriminate).
  split; [exact H1|]. split; [exact H2|]. split; [exact H3|].
  exact (jobfile_Read_delivers cmd_file hello_job 0 buf cont 2 H1 H2 H3).
Defined.

Lemma jobfile_Read_then_end_witness :
  let cont := list_ascii_of_string "echo hi" in
  let buf := list_ascii_of_string "???" in
  reader cmd_file hello_job 0 = Some cont
  /\ 0 <= 0 <= len cont
  /\ exists buf' n,
       jobfile_Read cmd_file hello_job 0 buf 0 = Some (buf', (n, None))
       /\ 0 <= n
       /\ jobfile_Read cmd_file hello_job 0 buf (0 + n) = Some (buf, (0, None)).
Proof.
  intros cont buf.
  assert (H1 : reader cmd_file hello_job 0 = Some cont) by reflexivity.
  assert (H2 : 0 <= 0 <= len cont) by (vm_compute; split; discriminate).
  split; [exact H1|]. split; [exact H2|].
  exact (jobfile_Read_then_end cmd_file hello_job 0 buf buf cont 0 H1 H2).
Defined.

Lemma cmd_read_is_creation_command_witness :
  let es := [WriteFile Nctl (list_ascii_of_string "start")] in
  let s := mkSys (spawn (set_state hello_job STARTED)) None in
  mkJob hello_def = Ok hello_job
  /\ run_events unit sample_Parse sample_Next sample_time_String sample_lower
       (mkSys hello_job None) es = Some s
  /\ reader cmd_file (sjob s) 0 = Some (list_ascii_of_string (cmd hello_def))
  /\ name (defn (sjob s)) = name hello_def
  /\ schedule (defn (sjob s)) = schedule hello_def
  /\ map Name (children (sjob s)) = ["ctl"; "schedule"; "cmd"; "log"]
  /\ map Mode (children (sjob s)) = [438; 292; 292; 292].
Proof.
  intros es s.
  split; [reflexivity|]. split; [reflexivity|].
  exact (cmd_read_is_creation_command unit sample_Parse sample_Next
           sample_time_String sample_lower hello_def hello_job es s 0
           eq_refl eq_refl).
Defined.

Lemma ctl_and_schedule_reads_witness :
  let es := [WriteFile Nctl (list_ascii_of_string "start")] in
  let s := mkSys (spawn (set_state hello_job STARTED)) None in
  let ctl := ctl_file sample_lower in
  let sched := sched_file unit sample_Parse sample_Next sample_time_String in
  mkJobDefinition unit sample_Parse "hello" "* * * * *" "echo hi" = Ok hello_def
  /\ mkJob hello_def = Ok hello_job
  /\ run_events unit sample_Parse sample_Next sample_time_String sample_lower
       (mkSys hello_job None) es = Some s
  /\ exists ex,
       sample_Parse "* * * * *" = inl ex
       /\ ((reader ctl (sjob s) 0 = Some (list_ascii_of_string STOPPED)
            /\ reader sched (sjob s) 0 = Some (list_ascii_of_string "* * * * *"))
           \/ (reader ctl (sjob s) 0 = Some (list_ascii_of_string STARTED)
               /\ reader sched (sjob s) 0
                  = Some (list_ascii_of_string
                            ("* * * * *" ++ ":"
                             ++ sample_time_String (sample_Next ex 0))%string))).
Proof.
  intros es s ctl sched.
  split; [reflexivity|]. split; [reflexivity|]. split; [reflexivity|].
  exact (ctl_and_schedule_reads unit sample_Parse sample_Next
           sample_time_String sample_lower "hello" "* * * * *" "echo hi"
           hello_def hello_job es s 0 eq_refl eq_refl eq_refl).
Defined.

Lemma log_along_interleaving_witness :
  let es := [WriteFile Nctl (list_ascii_of_string "start"); Task 0 (Begin 0);
             Task 0 (Fire 1 (Some "hi")); Task 0 (Fire 1 None);
             WriteFile Nctl (list_ascii_of_string "stop"); Recv 0;
             Task 0 (Finish 1);
             WriteFile Nctl (list_ascii_of_string "start"); Task 1 (Begin 1)] in
  let pushed := flat_map (event_entries sample_time_String) es in
  exists s,
    mkJob hello_def = Ok hello_job
    /\ run_events unit sample_Parse sample_Next sample_time_String sample_lower
         (mkSys hello_job None) es = Some s
    /\ alone_throughout unit sample_Parse sample_Next sample_time_String
         sample_lower (mkSys hello_job None) es = true
    /\ List.length (history (sjob s)) = 32%nat
    /\ reader log_file (sjob s) 0
       = Some (flat_map list_ascii_of_string
                 (lastn (Nat.min (List.length pushed) 32) pushed)).
Proof.
  intros es pushed. eexists.
  split; [reflexivity|]. split; [reflexivity|]. split; [reflexivity|].
  exact (log_along_interleaving unit sample_Parse sample_Next
           sample_time_String sample_lower hello_def hello_job es _ 0
           eq_refl eq_refl eq_refl).
Defined.

Lemma stop_write_can_complete_witness :
  let es := [WriteFile Nctl (list_ascii_of_string "start")] in
  let s := mkSys (spawn (set_state hello_job STARTED)) None in
  let data := list_ascii_of_string "STOP" in
  mkJobDefinition unit sample_Parse "hello" "* * * * *" "echo hi" = Ok hello_def
  /\ mkJob hello_def = Ok hello_job
  /\ run_events unit sample_Parse sample_Next sample_time_String sample_lower
       (mkSys hello_job None) es = Some s
  /\ sending s = None
  /\ state (defn (sjob s)) = STARTED
  /\ equal_fold data STOP
  /\ exists j1,
       ctl_write unit sample_Parse sample_time_String sample_lower
         (sjob s) data j1 (len data) None
       /\ state (defn j1) = STOPPED
       /\ count_listening (tasks j1) = 0%nat.
Proof.
  intros es s data.
  repeat (split; [reflexivity|]).
  exact (stop_write_can_complete unit sample_Parse sample_Next
           sample_time_String sample_lower sample_lower_commands
           "hello" "* * * * *" "echo hi" hello_def hello_job es s data
           eq_refl eq_refl eq_refl eq_refl eq_refl eq_refl).
Defined.

Lemma stop_blocks_after_parse_failure_witness :
  let def := mkJobdef "nightly" "every night" "true" STOPPED in
  let j := mkJobRec def (ring_New 32) [] (children hello_job) in
  let d_start := list_ascii_of_string "start" in
  let d_stop := list_ascii_of_string "stop" in
  sample_Parse (schedule def) = inr "syntax error"
  /\ state def = STOPPED
  /\ mkJob def = Ok j
  /\ equal_fold d_start START
  /\ equal_fold d_stop STOP
  /\ exists s1 s2,
       run_events unit sample_Parse sample_Next sample_time_String sample_lower
         (mkSys j None) [WriteFile Nctl d_start; Task 0 (Begin 0)]
       = Some s1
       /\ state (defn (sjob s1)) = STARTED
       /\ tasks (sjob s1) = [Exited]
       /\ sending s1 = None
       /\ step unit sample_Parse sample_Next sample_time_String sample_lower
            s1 (WriteFile Nctl d_stop) = Some s2
       /\ state (defn (sjob s2)) = STOPPED
       /\ sending s2 = Some d_stop
       /\ forall es s',
            run_events unit sample_Parse sample_Next sample_time_String
              sample_lower s2 es = Some s' ->
            sending s' <> None.
Proof.
  intros def j d_start d_stop.
  repeat (split; [reflexivity|]).
  exact (stop_blocks_after_parse_failure unit sample_Parse sample_Next
           sample_time_String sample_lower sample_lower_commands
           def j "syntax error" d_start d_stop 0
           eq_refl eq_refl eq_refl eq_refl eq_refl).
Defined.

Lemma start_fire_stop_log_witness :
  let d_start := list_ascii_of_string "Start" in
  let d_stop := list_ascii_of_string "Stop" in
  let runs := [(1, "hi"); (1, "hi")] in
  let pushed :=
    (sample_time_String 0 ++ ":started" ++ nl)%string
    :: map (fun r => (sample_time_String (fst r) ++ ":" ++ snd r)%string) runs
    ++ [(sample_time_String 1 ++ ":completed" ++ nl)%string] in
  mkJobDefinition unit sample_Parse "hello" "* * * * *" "echo hi" = Ok hello_def
  /\ mkJob hello_def = Ok hello_job
  /\ equal_fold d_start START
  /\ equal_fold d_stop STOP
  /\ exists s,
       run_events unit sample_Parse sample_Next sample_time_String sample_lower
         (mkSys hello_job None)
         ([WriteFile Nctl d_start; Task 0 (Begin 0)] ++ fires 0 runs
          ++ [WriteFile Nctl d_stop; Recv 0; Task 0 (Finish 1)])
       = Some s
       /\ state (defn (sjob s)) = STOPPED
       /\ tasks (sjob s) = [Exited]
       /\ sending s = None
       /\ reader log_file (sjob s) 0
          = Some (flat_map list_ascii_of_string
                    (lastn (Nat.min (List.length pushed) 32) pushed)).
Proof.
  intros d_start d_stop runs pushed.
  repeat (split; [reflexivity|]).
  exact (start_fire_stop_log unit sample_Parse sample_Next sample_time_String
           sample_lower sample_lower_commands
           "hello" "* * * * *" "echo hi" hello_def hello_job
           d_start d_stop 0 1 0 runs eq_refl eq_refl eq_refl eq_refl).
Defined.

Lemma write_waits_only_to_stop_witness :
  let j := spawn (set_state hello_job STARTED) in
  let data := list_ascii_of_string "stop" in
  let s2 := mkSys (set_state j STOPPED) (Some data) in
  let step := step unit sample_Parse sample_Next sample_time_String sample_lower in
  step (mkSys j None) (WriteFile Nctl data) = Some s2
  /\ (Nctl = Nctl /\ equal_fold data STOP /\ state (defn j) <> STOPPED)
  /\ step s2 (WriteFile Nlog data) = None.
Proof.
  intros j data s2 step.
  assert (H : step (mkSys j None) (WriteFile Nctl data) = Some s2)
    by reflexivity.
  assert (Hs : sending s2 <> None) by discriminate.
  split; [exact H|]. split.
  - exact (proj1 (proj2 (write_waits_only_to_stop unit sample_Parse sample_Next
                           sample_time_String sample_lower sample_lower_commands
                           Nctl (mkSys j None) data) s2 H) Hs).
  - exact (proj2 (proj1 (write_waits_only_to_stop unit sample_Parse sample_Next
                           sample_time_String sample_lower sample_lower_commands
                           Nlog s2 data)) Hs).
Defined.

Lemma clone_write_repeated_after_open_failure_witness :
  let d := mkDaemon [] (mkHostfile (Some "no such file") None EmptyString) in
  let data := list_ascii_of_string "hello:* * * * *:echo hi" in
  strings_Split (string_of_list_ascii data) ":" = ["hello"; "* * * * *"; "echo hi"]
  /\ mkJobDefinition unit sample_Parse "hello" "* * * * *" "echo hi" = Ok hello_def
  /\ ~ In "hello" (map Name (jobsroot d))
  /\ open_error (jobsdb d) = Some "no such file"
  /\ exists j,
       let d1 := mkDaemon (jobsroot d ++ [mkFile "hello" (Z.lor DMDIR 365) j])
                   (jobsdb d) in
       mkJob hello_def = Ok j
       /\ clonefile_Write unit sample_Parse d data 0
          = (d1, (len data, Some (ErrOS "no such file")))
       /\ clonefile_Write unit sample_Parse d1 data 0
          = (d1, (len data, Some Eexist)).
Proof.
  intros d data.
  assert (H : ~ In "hello" (map Name (jobsroot d))) by (intros []).
  split; [reflexivity|]. split; [reflexivity|]. split; [exact H|].
  split; [reflexivity|].
  exact (clone_write_repeated_after_open_failure unit sample_Parse d data 0
           "hello" "* * * * *" "echo hi" "no such file" hello_def
           eq_refl eq_refl H eq_refl).
Defined.
